(** * WordleSolver: the constraint filter and the guess ranker

    A shallow embedding of [wordle_solver.py].  Words, guesses and colour
    patterns are numpy arrays of code points; they are modelled as lists of
    [Z].  The candidate array [words] is a two-dimensional array: a record
    with its column count and its rows; it stays two-dimensional when no
    row is left, as the result of a filter does.  numpy raises
    [IndexError] when a boolean mask that is not empty does not have the
    length of the axis it indexes, and Python raises [ZeroDivisionError]
    on [n / 0]; both are modelled by an error monad.

    The program computes the scores in binary64.  The scores of
    [calc_guess_entropy] below are the exact rationals that the program
    rounds at every step, so what is proved of them is what does not
    depend on the rounding: when a score is returned and when an
    exception is raised, that a score is not negative, and the scores of
    the small arrays of the examples, which binary64 holds exactly.  The
    ranking is stated over any score arithmetic and any index sort that
    sorts ([rank_words_any]). *)

From Stdlib Require Import String Ascii.
From Stdlib Require Import List ZArith QArith Bool Arith Lia.
From Stdlib Require Import Permutation Sorted.
Import ListNotations.

Local Open Scope Z_scope.

(** ** Exceptions *)

Inductive exn : Type :=
| IndexError
| ZeroDivisionError.

Inductive result (A : Type) : Type :=
| Ok (a : A)
| Raise (e : exn).

Arguments Ok {A} a.
Arguments Raise {A} e.

Definition bind {A B : Type} (c : result A) (k : A -> result B) : result B :=
  match c with
  | Ok a => k a
  | Raise e => Raise e
  end.

Notation "x <- c ;; k" := (bind c (fun x => k))
  (at level 61, c at next level, right associativity).

(** [[f(x) for x in l]] where [f] may raise: the first exception wins. *)
Fixpoint mapM {A B : Type} (f : A -> result B) (l : list A) : result (list B) :=
  match l with
  | [] => Ok []
  | x :: t => y <- f x ;; ys <- mapM f t ;; Ok (y :: ys)
  end.

(** ** Constants *)

Definition ord (c : ascii) : Z := Z.of_N (N_of_ascii c).

Definition G_UNICODE : Z := Eval cbv in ord "g".
Definition Y_UNICODE : Z := Eval cbv in ord "y".
Definition B_UNICODE : Z := Eval cbv in ord "b".

(** [itertools.product(pool, repeat=n)]: the library builds it as
    [result = [[]]; for pool in pools: result = [x+[y] for x in result for y in pool]]. *)
Fixpoint product_pools {A : Type} (pools : list (list A)) (result : list (list A))
  : list (list A) :=
  match pools with
  | [] => result
  | pool :: rest =>
      product_pools rest
        (flat_map (fun x => map (fun y => x ++ [y]) pool) result)
  end.

Definition product {A : Type} (pool : list A) (n : nat) : list (list A) :=
  product_pools (repeat pool n) [[]].

Definition POSSIBLE_COLORS : list (list Z) :=
  product [G_UNICODE; Y_UNICODE; B_UNICODE] 5.

(** ** Arrays *)

(** [get_unicode]: a word as the array of its code points. *)
Fixpoint get_unicode (word : string) : list Z :=
  match word with
  | EmptyString => []
  | String c rest => ord c :: get_unicode rest
  end.

(** A two-dimensional integer array of shape [(length rows, ncols)]. *)
Record ndarray2 : Type := mk_ndarray2 {
  ncols : nat;
  rows : list (list Z)
}.

Definition wf_array (a : ndarray2) : Prop :=
  Forall (fun r => length r = ncols a) (rows a).

(** [a.shape[0]] *)
Definition shape0 (a : ndarray2) : nat := length (rows a).

(** [a == v] for a one-dimensional array and a scalar. *)
Definition mask_eq (a : list Z) (v : Z) : list bool :=
  map (fun x => x =? v) a.

(** [~mask] *)
Definition invert (mask : list bool) : list bool := map negb mask.

(** The elements of [a] where [mask] holds. *)
Fixpoint compress {A : Type} (mask : list bool) (a : list A) : list A :=
  match mask, a with
  | b :: mask', x :: a' =>
      if b then x :: compress mask' a' else compress mask' a'
  | _, _ => []
  end.

(** numpy compares the length of a boolean index with the size of the
    axis it indexes only when the index is not empty: an empty mask is
    accepted on every axis and selects nothing. *)
Definition mask_fits (mask : list bool) (size : nat) : bool :=
  ((length mask =? 0) || (length mask =? size))%nat.

(** [a[mask]], one-dimensional: a mask that is not empty must have the
    length of [a]. *)
Definition getitem_mask (mask : list bool) (a : list Z) : result (list Z) :=
  if mask_fits mask (length a) then Ok (compress mask a)
  else Raise IndexError.

(** [a[:, mask]]: a mask that is not empty must have the length of axis 1. *)
Definition getitem_cols (mask : list bool) (a : ndarray2) : result ndarray2 :=
  if mask_fits mask (ncols a)
  then Ok {| ncols := length (filter (fun b : bool => b) mask);
             rows := map (compress mask) (rows a) |}
  else Raise IndexError.

(** [a[mask]], two-dimensional: the mask selects rows; the result is a
    fresh array. *)
Definition getitem_rows (mask : list bool) (a : ndarray2) : result ndarray2 :=
  if mask_fits mask (shape0 a)
  then Ok {| ncols := ncols a; rows := compress mask (rows a) |}
  else Raise IndexError.

(** Element-wise comparison of two rows of the same length. *)
Fixpoint zip_with {A B C : Type} (f : A -> B -> C) (a : list A) (b : list B)
  : list C :=
  match a, b with
  | x :: a', y :: b' => f x y :: zip_with f a' b'
  | _, _ => []
  end.

(** [a == b] and [a != b] for [a] of shape [(n, k)] and [b] of shape [(k,)]. *)
Definition eq_rows (a : ndarray2) (b : list Z) : list (list bool) :=
  map (fun r => zip_with Z.eqb r b) (rows a).

Definition ne_rows (a : ndarray2) (b : list Z) : list (list bool) :=
  map (fun r => zip_with (fun x y => negb (x =? y)) r b) (rows a).

(** [np.all(m, axis=1)] and [m.all(axis=1)] *)
Definition all_axis1 (m : list (list bool)) : list bool :=
  map (forallb (fun b : bool => b)) m.

(** [np.unique]: the sorted distinct elements. *)
Fixpoint insert_unique (x : Z) (l : list Z) : list Z :=
  match l with
  | [] => [x]
  | y :: t =>
      if x <? y then x :: l
      else if x =? y then l
      else y :: insert_unique x t
  end.

Definition np_unique (a : list Z) : list Z := fold_right insert_unique [] a.

(** [(a == u).sum()] *)
Definition count_eq (a : list Z) (u : Z) : nat :=
  length (filter (fun x => x =? u) a).

(** [(a == uniq[:, np.newaxis]).sum(axis=1)] *)
Definition counts_of (a : list Z) (uniq : list Z) : list nat :=
  map (count_eq a) uniq.

(** [(a == uniq[:, np.newaxis, np.newaxis]).sum(axis=2).T]: one row of
    counts for each row of [a]. *)
Definition counts_rows (a : ndarray2) (uniq : list Z) : list (list nat) :=
  map (fun r => counts_of r uniq) (rows a).

(** [counts >= limits] and [counts <= limits], [limits] broadcast over rows. *)
Definition ge_rows (counts : list (list nat)) (limits : list nat)
  : list (list bool) :=
  map (fun r => zip_with (fun c l => (l <=? c)%nat) r limits) counts.

Definition le_rows (counts : list (list nat)) (limits : list nat)
  : list (list bool) :=
  map (fun r => zip_with (fun c l => (c <=? l)%nat) r limits) counts.

(** ** The constraint filter *)

Definition get_poss_words (guess colors : list Z) (words : ndarray2)
  : result ndarray2 :=
  (* Green. *)
  let green_letter_mask := mask_eq colors G_UNICODE in
  words_green <- getitem_cols green_letter_mask words ;;
  guess_green <- getitem_mask green_letter_mask guess ;;
  let green_word_mask := all_axis1 (eq_rows words_green guess_green) in
  words <- getitem_rows green_word_mask words ;;
  (* Yellow and Black: letter not at ind. *)
  words_not_green <- getitem_cols (invert green_letter_mask) words ;;
  guess_not_green <- getitem_mask (invert green_letter_mask) guess ;;
  let letter_not_at_index_mask :=
    all_axis1 (ne_rows words_not_green guess_not_green) in
  words <- getitem_rows letter_not_at_index_mask words ;;
  (* Yellow. *)
  yellow_letters <- getitem_mask (mask_eq colors Y_UNICODE) guess ;;
  let unique_yellow_letters := np_unique yellow_letters in
  let yellow_letter_count_limits :=
    counts_of yellow_letters unique_yellow_letters in
  possible_words_not_green_letters <-
    getitem_cols (invert green_letter_mask) words ;;
  let yellow_letter_counts :=
    counts_rows possible_words_not_green_letters unique_yellow_letters in
  words <- getitem_rows
             (all_axis1 (ge_rows yellow_letter_counts yellow_letter_count_limits))
             words ;;
  (* Black. *)
  black_letters <- getitem_mask (mask_eq colors B_UNICODE) guess ;;
  let unique_black_letters := np_unique black_letters in
  let yellow_black_letter_count :=
    counts_of yellow_letters unique_black_letters in
  possible_words_not_green_letters <-
    getitem_cols (invert green_letter_mask) words ;;
  let black_letter_counts :=
    counts_rows possible_words_not_green_letters unique_black_letters in
  words <- getitem_rows
             (all_axis1 (le_rows black_letter_counts yellow_black_letter_count))
             words ;;
  Ok words.

(** ** The guess ranker *)

(** [n / d] on Python integers: true division, [ZeroDivisionError] when
    [d] is zero.  The quotient is the exact rational; the program has its
    binary64 rounding. *)
Definition truediv (n d : nat) : result Q :=
  match d with
  | O => Raise ZeroDivisionError
  | S _ => Ok (Z.of_nat n # Pos.of_nat d)%Q
  end.

(** The body of the [for colors in POSSIBLE_COLORS] loop, with the
    accumulator [pred_remain_words], in exact rationals. *)
Fixpoint entropy_loop (patterns : list (list Z)) (guess : list Z)
  (words : ndarray2) (pred_remain_words : Q) : result Q :=
  match patterns with
  | [] => Ok pred_remain_words
  | colors :: rest =>
      poss <- get_poss_words guess colors words ;;
      let n_poss_words := shape0 poss in
      frac <- truediv n_poss_words (shape0 words) ;;
      entropy_loop rest guess words
        (pred_remain_words + frac * inject_Z (Z.of_nat n_poss_words))%Q
  end.

Definition calc_guess_entropy (guess : list Z) (words : ndarray2) : result Q :=
  entropy_loop POSSIBLE_COLORS guess words 0%Q.

(** [np.argsort] with the default kind.  numpy documents the result only
    as an index array that sorts its argument, and the order it gives to
    equal values differs from one build of numpy to another.  The
    insertion sort below is one index sort that sorts; it stands for
    [np.argsort] where the order of equal scores does not matter, and it
    is not used where it does ([rank_words_any]). *)
Fixpoint insert_ind (v : list Q) (i : nat) (sorted : list nat) : list nat :=
  match sorted with
  | [] => [i]
  | j :: t =>
      if Qle_bool (nth j v 0%Q) (nth i v 0%Q)
      then j :: insert_ind v i t
      else i :: sorted
  end.

Definition argsort (v : list Q) : list nat :=
  fold_left (fun sorted i => insert_ind v i sorted) (seq 0 (length v)) [].

(** [a[inds]] with an integer index array: every index must be in range. *)
Definition take {A : Type} (inds : list nat) (a : list A) : result (list A) :=
  mapM (fun i => match nth_error a i with
                 | Some x => Ok x
                 | None => Raise IndexError
                 end) inds.

Definition take_rows (inds : list nat) (a : ndarray2) : result ndarray2 :=
  rs <- take inds (rows a) ;;
  Ok {| ncols := ncols a; rows := rs |}.

(** [rank_words]: the pool evaluates [calc_guess_entropy] for every guess;
    the results are collected in submission order, and an exception in a
    worker is raised again by [get].  [np_argsort] stands for the index
    sort. *)
Definition rank_words_with (np_argsort : list Q -> list nat)
  (words : ndarray2) : result (ndarray2 * list Q) :=
  pred_remain_words <-
    mapM (fun guess => calc_guess_entropy guess words) (rows words) ;;
  let sorted_inds := np_argsort pred_remain_words in
  sorted_words <- take_rows sorted_inds words ;;
  sorted_pred <- take sorted_inds pred_remain_words ;;
  Ok (sorted_words, sorted_pred).

Definition rank_words (words : ndarray2) : result (ndarray2 * list Q) :=
  rank_words_with argsort words.

(** [rank_words] with the arithmetic of the scores and the index sort
    left open: [guess_score] stands for [calc_guess_entropy] in the
    arithmetic of the program, [np_argsort] for [np.argsort]. *)
Definition rank_words_any {score : Type}
  (guess_score : list Z -> ndarray2 -> result score)
  (np_argsort : list score -> list nat) (words : ndarray2)
  : result (ndarray2 * list score) :=
  pred_remain_words <-
    mapM (fun guess => guess_score guess words) (rows words) ;;
  let sorted_inds := np_argsort pred_remain_words in
  sorted_words <- take_rows sorted_inds words ;;
  sorted_pred <- take sorted_inds pred_remain_words ;;
  Ok (sorted_words, sorted_pred).

(** What numpy promises of [np.argsort]: the result holds every index of
    the array once, and the array taken at these indices is in ascending
    order. *)
Definition index_sort {score : Type} (le : score -> score -> Prop)
  (np_argsort : list score -> list nat) : Prop :=
  forall v,
    Permutation (np_argsort v) (seq 0 (length v))
    /\ forall sorted, take (np_argsort v) v = Ok sorted ->
         StronglySorted le sorted.

(** ** The filter over a store of arrays

    Python passes arrays by reference.  To say what a call does to the
    caller's array, the arrays live in a store: a reference is a position
    in the store, and every indexing expression with a boolean mask builds
    a new array (numpy's advanced indexing copies).  The assignment
    [words = words[mask]] rebinds the local name to the new reference. *)

Module Store.

Definition heap : Type := list ndarray2.
Definition ref : Type := nat.

Definition empty_array : ndarray2 := {| ncols := 0; rows := [] |}.

Definition deref (h : heap) (p : ref) : ndarray2 := nth p h empty_array.

(** An in-place write, [a[...] = v], as a caller could do after the call. *)
Fixpoint assign (h : heap) (p : ref) (v : ndarray2) : heap :=
  match h, p with
  | [], _ => []
  | _ :: t, O => v :: t
  | a :: t, S p' => a :: assign t p' v
  end.

(** A computation over the store: it may raise, and it leaves a store. *)
Definition St (A : Type) : Type := heap -> result A * heap.

Definition ret {A : Type} (a : A) : St A := fun h => (Ok a, h).

Definition bindS {A B : Type} (c : St A) (k : A -> St B) : St B :=
  fun h =>
    match c h with
    | (Ok a, h') => k a h'
    | (Raise e, h') => (Raise e, h')
    end.

Definition lift {A : Type} (r : result A) : St A := fun h => (r, h).

Definition alloc (a : ndarray2) : St ref :=
  fun h => (Ok (length h), h ++ [a]).

Definition read (p : ref) : St ndarray2 := fun h => (Ok (deref h p), h).

Notation "x <~ c ;; k" := (bindS c (fun x => k))
  (at level 61, c at next level, right associativity).

(** [a[:, mask]] and [a[mask]] on references. *)
Definition getitem_cols_ref (mask : list bool) (p : ref) : St ref :=
  a <~ read p ;; b <~ lift (getitem_cols mask a) ;; alloc b.

Definition getitem_rows_ref (mask : list bool) (p : ref) : St ref :=
  a <~ read p ;; b <~ lift (getitem_rows mask a) ;; alloc b.

Definition get_poss_words_ref (guess colors : list Z) (words : ref) : St ref :=
  let green_letter_mask := mask_eq colors G_UNICODE in
  words_green <~ getitem_cols_ref green_letter_mask words ;;
  guess_green <~ lift (getitem_mask green_letter_mask guess) ;;
  wg <~ read words_green ;;
  let green_word_mask := all_axis1 (eq_rows wg guess_green) in
  words <~ getitem_rows_ref green_word_mask words ;;
  words_not_green <~ getitem_cols_ref (invert green_letter_mask) words ;;
  guess_not_green <~ lift (getitem_mask (invert green_letter_mask) guess) ;;
  wn <~ read words_not_green ;;
  let letter_not_at_index_mask := all_axis1 (ne_rows wn guess_not_green) in
  words <~ getitem_rows_ref letter_not_at_index_mask words ;;
  yellow_letters <~ lift (getitem_mask (mask_eq colors Y_UNICODE) guess) ;;
  let unique_yellow_letters := np_unique yellow_letters in
  let yellow_letter_count_limits :=
    counts_of yellow_letters unique_yellow_letters in
  possible_words_not_green_letters <~
    getitem_cols_ref (invert green_letter_mask) words ;;
  pw <~ read possible_words_not_green_letters ;;
  let yellow_letter_counts := counts_rows pw unique_yellow_letters in
  words <~ getitem_rows_ref
             (all_axis1 (ge_rows yellow_letter_counts yellow_letter_count_limits))
             words ;;
  black_letters <~ lift (getitem_mask (mask_eq colors B_UNICODE) guess) ;;
  let unique_black_letters := np_unique black_letters in
  let yellow_black_letter_count :=
    counts_of yellow_letters unique_black_letters in
  possible_words_not_green_letters <~
    getitem_cols_ref (invert green_letter_mask) words ;;
  pw <~ read possible_words_not_green_letters ;;
  let black_letter_counts := counts_rows pw unique_black_letters in
  words <~ getitem_rows_ref
             (all_axis1 (le_rows black_letter_counts yellow_black_letter_count))
             words ;;
  ret words.

(** [ext h h']: the store [h'] is [h] with new arrays after it. *)
Definition ext (h h' : heap) : Prop := exists fresh, h' = h ++ fresh.

(** [sim n0 c r h]: run from the store [h], the computation [c] only adds
    arrays to the store; it raises what the computation on values [r]
    raises, and otherwise returns a reference that is not among the first
    [n0] and holds the array that [r] returns. *)
Definition sim (n0 : nat) (c : St ref) (r : result ndarray2) (h : heap)
  : Prop :=
  match c h with
  | (Ok q, h') =>
      ext h h' /\ (n0 <= q < length h')%nat /\ r = Ok (deref h' q)
  | (Raise e, h') => ext h h' /\ r = Raise e
  end.

End Store.

(** ** The tests of the filter, row by row

    [get_poss_words] applies four tests to the rows, one after the other;
    these are the tests as predicates of one row. *)

Definition green_ok (guess colors w : list Z) : bool :=
  let green_letter_mask := mask_eq colors G_UNICODE in
  forallb (fun b : bool => b)
    (zip_with Z.eqb (compress green_letter_mask w)
       (compress green_letter_mask guess)).

Definition not_at_index_ok (guess colors w : list Z) : bool :=
  let green_letter_mask := mask_eq colors G_UNICODE in
  forallb (fun b : bool => b)
    (zip_with (fun x y => negb (x =? y))
       (compress (invert green_letter_mask) w)
       (compress (invert green_letter_mask) guess)).

Definition yellow_ok (guess colors w : list Z) : bool :=
  let green_letter_mask := mask_eq colors G_UNICODE in
  let yellow_letters := compress (mask_eq colors Y_UNICODE) guess in
  forallb (fun b : bool => b)
    (zip_with (fun c l => (l <=? c)%nat)
       (counts_of (compress (invert green_letter_mask) w)
          (np_unique yellow_letters))
       (counts_of yellow_letters (np_unique yellow_letters))).

Definition black_ok (guess colors w : list Z) : bool :=
  let green_letter_mask := mask_eq colors G_UNICODE in
  let yellow_letters := compress (mask_eq colors Y_UNICODE) guess in
  let black_letters := compress (mask_eq colors B_UNICODE) guess in
  forallb (fun b : bool => b)
    (zip_with (fun c l => (c <=? l)%nat)
       (counts_of (compress (invert green_letter_mask) w)
          (np_unique black_letters))
       (counts_of yellow_letters (np_unique black_letters))).

Definition consistent (guess colors w : list Z) : bool :=
  green_ok guess colors w && not_at_index_ok guess colors w
  && yellow_ok guess colors w && black_ok guess colors w.

(** ** Counting by position *)

(** The number of positions below [n] where [p] holds. *)
Definition count_positions (n : nat) (p : nat -> bool) : nat :=
  length (filter p (seq 0 n)).

(** How often [letter] stands at a PRESENT (yellow) position of the guess. *)
Definition present_count (guess colors : list Z) (letter : Z) : nat :=
  count_positions (length guess)
    (fun i => (nth i colors 0 =? Y_UNICODE) && (nth i guess 0 =? letter)).

(** How often [letter] stands at an ABSENT (black) position of the guess. *)
Definition absent_count (guess colors : list Z) (letter : Z) : nat :=
  count_positions (length guess)
    (fun i => (nth i colors 0 =? B_UNICODE) && (nth i guess 0 =? letter)).

(** How often [letter] stands in [w] at a position that is not EXACT. *)
Definition non_exact_count (colors w : list Z) (letter : Z) : nat :=
  count_positions (length w)
    (fun i => negb (nth i colors 0 =? G_UNICODE) && (nth i w 0 =? letter)).

(** ** The quantities of the ranking invariant *)

(** The sum of [n_poss_words] over the patterns: the loop of
    [calc_guess_entropy] with the counts added up. *)
Fixpoint total_poss_words (patterns : list (list Z)) (guess : list Z)
  (words : ndarray2) : result nat :=
  match patterns with
  | [] => Ok O
  | colors :: rest =>
      poss <- get_poss_words guess colors words ;;
      total <- total_poss_words rest guess words ;;
      Ok (shape0 poss + total)%nat
  end.

(** [n_f]: the number of rows the filter keeps for the pattern [colors]. *)
Definition n_poss_words (guess colors : list Z) (words : ndarray2) : nat :=
  match get_poss_words guess colors words with
  | Ok poss => shape0 poss
  | Raise _ => O
  end.

(** The feedback space as the specification describes it: every sequence
    of [n] symbols, each one EXACT, PRESENT or ABSENT. *)
Fixpoint all_patterns (n : nat) : list (list Z) :=
  match n with
  | O => [[]]
  | S k =>
      flat_map (fun c => map (cons c) (all_patterns k))
        [G_UNICODE; Y_UNICODE; B_UNICODE]
  end.

Fixpoint Qsum (l : list Q) : Q :=
  match l with
  | [] => 0%Q
  | x :: t => (x + Qsum t)%Q
  end.

Definition Qnat (n : nat) : Q := inject_Z (Z.of_nat n).

(** The expected remaining count as the specification writes it: the sum
    over the feedback space of [(n_f / |candidates|) * n_f]. *)
Definition expected_remaining (guess : list Z) (words : ndarray2) : Q :=
  Qsum (map (fun f =>
               (Qnat (n_poss_words guess f words) / Qnat (shape0 words)
                * Qnat (n_poss_words guess f words))%Q)
          (all_patterns 5)).

(** The colouring of the game, used to exhibit a pattern every candidate
    is consistent with: a position is green when the letters agree; the
    other positions are painted from left to right, yellow as long as the
    letters of [w] outside the green positions still hold the letter, one
    being used up each time, and black after that. *)
Fixpoint remove_one (x : Z) (pool : list Z) : list Z :=
  match pool with
  | [] => []
  | y :: t => if y =? x then t else y :: remove_one x t
  end.

Fixpoint paint (pool guess w : list Z) : list Z :=
  match guess, w with
  | x :: guess', y :: w' =>
      if x =? y then G_UNICODE :: paint pool guess' w'
      else if existsb (fun z => z =? x) pool
           then Y_UNICODE :: paint (remove_one x pool) guess' w'
           else B_UNICODE :: paint pool guess' w'
  | _, _ => []
  end.

Definition game_colors (guess w : list Z) : list Z :=
  paint (compress (zip_with (fun x y => negb (x =? y)) guess w) w) guess w.

(** ** The order of a ranking *)

(** The order the specification describes for a ranking: ascending score,
    equal scores in the lexical order of the words. *)
Fixpoint lex_leb (a b : list Z) : bool :=
  match a, b with
  | [], _ => true
  | _ :: _, [] => false
  | x :: a', y :: b' => (x <? y) || ((x =? y) && lex_leb a' b')
  end.

Definition entry_leb (e1 e2 : list Z * Q) : bool :=
  negb (Qle_bool (snd e2) (snd e1))
  || (Qeq_bool (snd e1) (snd e2) && lex_leb (fst e1) (fst e2)).

Fixpoint sorted_by {A : Type} (leb : A -> A -> bool) (l : list A) : bool :=
  match l with
  | [] => true
  | x :: t => forallb (leb x) t && sorted_by leb t
  end.

Definition ranking_entries (ranking : ndarray2 * list Q) : list (list Z * Q) :=
  combine (rows (fst ranking)) (snd ranking).

(** The index order of the scores [v]. *)
Definition key_le (v : list Q) (i j : nat) : Prop :=
  (nth i v 0 <= nth j v 0)%Q.

(** ** The lengths the filter accepts *)

(** The colour pattern is empty, or it has the width of the array and the
    guess has its length. *)
Definition shape_ok (guess colors : list Z) (width : nat) : Prop :=
  length colors = O
  \/ (length colors = width /\ length guess = length colors).

(** ** The rules of the filter, by position *)

(** At a green position the word has the letter of the guess. *)
Definition rule_exact (guess colors w : list Z) : Prop :=
  forall i, (i < length colors)%nat ->
    nth i colors 0 = G_UNICODE -> nth i w 0 = nth i guess 0.

(** At any other position the word has another letter than the guess. *)
Definition rule_not_at_index (guess colors w : list Z) : Prop :=
  forall i, (i < length colors)%nat ->
    nth i colors 0 <> G_UNICODE -> nth i w 0 <> nth i guess 0.

(** A letter that is yellow in the guess stands in the word, outside the
    green positions, at least as often as it is yellow. *)
Definition rule_present (guess colors w : list Z) : Prop :=
  forall letter, (1 <= present_count guess colors letter)%nat ->
    (present_count guess colors letter
     <= non_exact_count colors w letter)%nat.

(** A letter that is black in the guess stands in the word, outside the
    green positions, at most as often as it is yellow. *)
Definition rule_absent (guess colors w : list Z) : Prop :=
  forall letter, (1 <= absent_count guess colors letter)%nat ->
    (non_exact_count colors w letter
     <= present_count guess colors letter)%nat.

(** ** Strings, printing and the turns of the game

    The rest of the program, around the filter and the ranker.  Reading
    the word file ([get_all_valid_words]) and the table of the first turn,
    the process pool and the progress bar are not modelled: the arrays
    read are parameters, the pool evaluates in submission order, and what
    the user types is a function of the turn. *)

(** [chr] on the code points of the strings of the model, which are
    strings of one-byte characters as in [get_unicode].  [None] stands for
    every other value: one that [chr] rejects with [ValueError], or one
    whose character the strings of the model do not hold. *)
Definition chr (v : Z) : option ascii :=
  if (0 <=? v) && (v <? 256) then Some (ascii_of_N (Z.to_N v)) else None.

(** [get_str]: the characters of the code points, joined. *)
Fixpoint get_str (unicode_array : list Z) : option string :=
  match unicode_array with
  | [] => Some EmptyString
  | val :: rest =>
      match chr val with
      | None => None
      | Some c =>
          match get_str rest with
          | None => None
          | Some word => Some (String c word)
          end
      end
  end.

(** What stops the program: an exception of the arrays, or the
    [ValueError] of [chr]. *)
Inductive raised : Type :=
| Raised (e : exn)
| ValueError.

(** One printed line of [show_words]: the rank, the word, the score. *)
Definition line : Type := (nat * string * Q)%type.

(** The lines [show_words] prints for the indices [inds], and what it
    raises if it does not get to the end: in [print(f"...")] the word is
    decoded first, then the score is looked up. *)
Fixpoint show_lines (inds : list nat) (words : ndarray2)
  (predicted_remaining_words : list Q) : list line * option raised :=
  match inds with
  | [] => ([], None)
  | i :: rest =>
      match get_str (nth i (rows words) []) with
      | None => ([], Some ValueError)
      | Some word =>
          match nth_error predicted_remaining_words i with
          | None => ([], Some (Raised IndexError))
          | Some score =>
              let (lines, err) :=
                show_lines rest words predicted_remaining_words in
              ((i, word, score) :: lines, err)
          end
      end
  end.

(** [show_words]: [for i in range(min(words.shape[0], n_words))]. *)
Definition show_words (words : ndarray2) (predicted_remaining_words : list Q)
  (n_words : nat) : list line * option raised :=
  show_lines (seq 0 (Nat.min (shape0 words) n_words)) words
    predicted_remaining_words.

(** [get_guess_colors]: the two lines the user types, as arrays. *)
Definition get_guess_colors (typed : string * string) : list Z * list Z :=
  (get_unicode (fst typed), get_unicode (snd typed)).

(** What the program prints. *)
Inductive event : Type :=
| RankedWords (lines : list line)
| IsTheWord (word : string)
| NoWordsMatch
| NoMoreTurns.

(** The loop [for turn in range(6)] of the main block, from turn [turn]
    with [turns_left] turns to go.  The dictionary [words] and the table
    [first_word_stats] are what the program reads from its two files;
    [typed turn] is what the user types at that turn.  The result is what
    has been printed and, if the program stopped on an exception, which. *)
Fixpoint game_loop (turns_left turn : nat) (words : ndarray2)
  (first_word_stats : ndarray2 * list Q) (typed : nat -> string * string)
  : list event * option raised :=
  match turns_left with
  | O => ([], None)
  | S turns_left' =>
      match (if (turn =? 0)%nat then Ok first_word_stats
             else rank_words words) with
      | Raise e => ([], Some (Raised e))
      | Ok (sorted_words, pred_remain_words) =>
          match show_words sorted_words pred_remain_words 10 with
          | (lines, Some e) => ([RankedWords lines], Some e)
          | (lines, None) =>
              let (guess, colors) := get_guess_colors (typed turn) in
              match get_poss_words guess colors words with
              | Raise e => ([RankedWords lines], Some (Raised e))
              | Ok words' =>
                  if (shape0 words' =? 1)%nat then
                    match get_str (nth 0 (rows words') []) with
                    | Some word => ([RankedWords lines; IsTheWord word], None)
                    | None => ([RankedWords lines], Some ValueError)
                    end
                  else if (shape0 words' =? 0)%nat then
                    ([RankedWords lines; NoWordsMatch], None)
                  else
                    let (rest, err) :=
                      game_loop turns_left' (S turn) words'
                        first_word_stats typed in
                    if (turn =? 5)%nat
                    then (RankedWords lines :: NoMoreTurns :: rest, err)
                    else (RankedWords lines :: rest, err)
              end
          end
      end
  end.

Definition main (words : ndarray2) (first_word_stats : ndarray2 * list Q)
  (typed : nat -> string * string) : list event * option raised :=
  game_loop 6 0 words first_word_stats typed.

(** The word [w] fits what the user typed at turn [t]. *)
Definition fits (typed : nat -> string * string) (t : nat) (w : list Z)
  : Prop :=
  consistent (get_unicode (fst (typed t))) (get_unicode (snd (typed t))) w
  = true.




(** ** Arrays of five-letter words, for the examples *)

Definition words_of (l : list string) : ndarray2 :=
  {| ncols := 5; rows := map get_unicode l |}.

(** A game on a dictionary of five words whose answer is [grace]: the
    user plays [crane], then [trace], then [brace]. *)
Definition example_dictionary : list string :=
  ["crane"; "trace"; "crazy"; "brace"; "grace"]%string.

Definition example_first_word_stats : ndarray2 * list Q :=
  (words_of ["trace"; "crane"]%string, [3 # 2; 2 # 1]%Q).

Definition example_typed (turn : nat) : string * string :=
  match turn with
  | O => ("crane", "yggbg")%string
  | S O => ("trace", "bgggg")%string
  | _ => ("brace", "bgggg")%string
  end.

(** * Properties *)

(** ** The filter and the ranker on small inputs *)

(** No word of the dictionary has [c], [r] in front and [e] at the end
    without [a] or [n]: nothing is kept, [crazy] neither. *)
Example crane_ggbbg :
  get_poss_words (get_unicode "crane") (get_unicode "ggbbg")
    (words_of ["crane"; "trace"; "shale"; "broad"; "crazy"]%string)
  = Ok (words_of []).
Proof. vm_compute. reflexivity. Qed.

(** The guess [speed] against candidates with no, one and two [e] outside
    the green positions. *)
Example speed_one_e :
  get_poss_words (get_unicode "speed") (get_unicode "bbyby")
    (words_of ["abide"; "erode"; "dairy"]%string)
  = Ok (words_of ["abide"]%string).
Proof. vm_compute. reflexivity. Qed.

Example speed_two_e :
  get_poss_words (get_unicode "speed") (get_unicode "bbyyy")
    (words_of ["abide"; "erode"; "dairy"]%string)
  = Ok (words_of ["erode"]%string).
Proof. vm_compute. reflexivity. Qed.

Example speed_no_e :
  get_poss_words (get_unicode "speed") (get_unicode "bbbby")
    (words_of ["abide"; "erode"; "dairy"]%string)
  = Ok (words_of ["dairy"]%string).
Proof. vm_compute. reflexivity. Qed.

(** A guess shorter than the words of the array. *)
Example short_guess :
  get_poss_words (get_unicode "spee") (get_unicode "bbyby")
    (words_of ["abide"; "erode"]%string)
  = Raise IndexError.
Proof. vm_compute. reflexivity. Qed.

Example argsort_ties :
  argsort [3 # 1; 1 # 1; 2 # 1; 1 # 1; 2 # 2]%Q = [1; 3; 4; 2; 0]%nat.
Proof. vm_compute. reflexivity. Qed.

(** ** Masks, selections and counts *)

Lemma length_mask_eq (a : list Z) (v : Z) : length (mask_eq a v) = length a.
Proof. unfold mask_eq. apply length_map. Qed.

Lemma length_invert (m : list bool) : length (invert m) = length m.
Proof. unfold invert. apply length_map. Qed.

Lemma compress_map_filter {A : Type} (p : A -> bool) (l : list A) :
  compress (map p l) l = filter p l.
Proof.
  induction l as [|x l IH]; simpl; [reflexivity|].
  rewrite IH. reflexivity.
Qed.

Lemma filter_filter_andb {A : Type} (p q : A -> bool) (l : list A) :
  filter q (filter p l) = filter (fun x => p x && q x) l.
Proof.
  induction l as [|x l IH]; simpl; [reflexivity|].
  destruct (p x); simpl; [destruct (q x)|]; rewrite IH; reflexivity.
Qed.

Lemma getitem_rows_filter (p : list Z -> bool) (a : ndarray2) :
  getitem_rows (map p (rows a)) a
  = Ok {| ncols := ncols a; rows := filter p (rows a) |}.
Proof.
  unfold getitem_rows, mask_fits, shape0.
  rewrite length_map, Nat.eqb_refl, orb_true_r.
  rewrite compress_map_filter. reflexivity.
Qed.

Lemma mask_fits_iff (mask : list bool) (size : nat) :
  mask_fits mask size = true <-> length mask = O \/ length mask = size.
Proof.
  unfold mask_fits. rewrite orb_true_iff, !Nat.eqb_eq. reflexivity.
Qed.

(** With an empty colour pattern, or with masks of the right length, the
    filter raises nothing and keeps exactly the rows that pass the four
    tests, in their order. *)
Lemma get_poss_words_shape_ok (guess colors : list Z) (words : ndarray2) :
  shape_ok guess colors (ncols words) ->
  get_poss_words guess colors words
  = Ok {| ncols := ncols words;
          rows := filter (consistent guess colors) (rows words) |}.
Proof.
  intros Hshape. unfold get_poss_words.
  assert (Hm : forall v, mask_fits (mask_eq colors v) (ncols words) = true).
  { intro v. apply mask_fits_iff. rewrite length_mask_eq.
    destruct Hshape as [H|[H _]]; auto. }
  assert (Hmi : mask_fits (invert (mask_eq colors G_UNICODE)) (ncols words)
                = true).
  { apply mask_fits_iff. rewrite length_invert, length_mask_eq.
    destruct Hshape as [H|[H _]]; auto. }
  assert (Hgm : forall v, mask_fits (mask_eq colors v) (length guess) = true).
  { intro v. apply mask_fits_iff. rewrite length_mask_eq.
    destruct Hshape as [H|[_ H]]; auto. }
  assert (Hgi : mask_fits (invert (mask_eq colors G_UNICODE)) (length guess)
                = true).
  { apply mask_fits_iff. rewrite length_invert, length_mask_eq.
    destruct Hshape as [H|[_ H]]; auto. }
  unfold getitem_cols at 1. rewrite Hm. cbn [bind].
  unfold getitem_mask. rewrite !Hgm, Hgi. cbn [bind].
  unfold eq_rows, all_axis1. cbn [rows]. rewrite !map_map.
  rewrite getitem_rows_filter. cbn [bind].
  unfold getitem_cols at 1. cbn [ncols rows]. rewrite Hmi. cbn [bind].
  unfold ne_rows. cbn [rows]. rewrite !map_map.
  match goal with
  | |- context [getitem_rows (map ?p ?l) ?a] =>
      change (getitem_rows (map p l) a) with (getitem_rows (map p (rows a)) a)
  end.
  rewrite getitem_rows_filter. cbn [bind ncols rows].
  unfold getitem_cols at 1. cbn [ncols rows]. rewrite Hmi. cbn [bind].
  unfold counts_rows, ge_rows. cbn [rows]. rewrite !map_map.
  match goal with
  | |- context [getitem_rows (map ?p ?l) ?a] =>
      change (getitem_rows (map p l) a) with (getitem_rows (map p (rows a)) a)
  end.
  rewrite getitem_rows_filter. cbn [bind ncols rows].
  unfold getitem_cols at 1. cbn [ncols rows]. rewrite Hmi. cbn [bind].
  unfold le_rows. cbn [rows]. rewrite !map_map.
  match goal with
  | |- context [getitem_rows (map ?p ?l) ?a] =>
      change (getitem_rows (map p l) a) with (getitem_rows (map p (rows a)) a)
  end.
  rewrite getitem_rows_filter. cbn [bind ncols rows].
  rewrite !filter_filter_andb. do 2 f_equal. apply filter_ext. intro w.
  unfold consistent, green_ok, not_at_index_ok, yellow_ok, black_ok.
  cbv zeta. rewrite !andb_assoc. reflexivity.
Qed.

Lemma get_poss_words_rows (guess colors : list Z) (words : ndarray2) :
  length colors = ncols words ->
  length guess = length colors ->
  get_poss_words guess colors words
  = Ok {| ncols := ncols words;
          rows := filter (consistent guess colors) (rows words) |}.
Proof.
  intros Hc Hg. apply get_poss_words_shape_ok. right. auto.
Qed.

Lemma get_poss_words_bad_colors (guess colors : list Z) (words : ndarray2) :
  length colors <> O ->
  length colors <> ncols words ->
  get_poss_words guess colors words = Raise IndexError.
Proof.
  intros H0 H. unfold get_poss_words, getitem_cols at 1.
  destruct (mask_fits (mask_eq colors G_UNICODE) (ncols words)) eqn:E;
    [|reflexivity].
  apply mask_fits_iff in E. rewrite length_mask_eq in E. tauto.
Qed.

Lemma get_poss_words_bad_guess (guess colors : list Z) (words : ndarray2) :
  length colors <> O ->
  length colors = ncols words ->
  length guess <> length colors ->
  get_poss_words guess colors words = Raise IndexError.
Proof.
  intros H0 Hc H. unfold get_poss_words, getitem_cols at 1.
  assert (Hm : mask_fits (mask_eq colors G_UNICODE) (ncols words) = true)
    by (apply mask_fits_iff; rewrite length_mask_eq; auto).
  rewrite Hm. cbn [bind]. unfold getitem_mask at 1.
  destruct (mask_fits (mask_eq colors G_UNICODE) (length guess)) eqn:E;
    [|reflexivity].
  apply mask_fits_iff in E. rewrite length_mask_eq in E.
  destruct E as [E|E]; [contradiction|]. symmetry in E. contradiction.
Qed.

Lemma shape_dec (guess colors : list Z) (width : nat) :
  {shape_ok guess colors width} + {~ shape_ok guess colors width}.
Proof.
  unfold shape_ok.
  destruct (Nat.eq_dec (length colors) O);
    destruct (Nat.eq_dec (length colors) width);
    destruct (Nat.eq_dec (length guess) (length colors)); intuition.
Qed.

Lemma get_poss_words_bad_shape (guess colors : list Z) (words : ndarray2) :
  ~ shape_ok guess colors (ncols words) ->
  get_poss_words guess colors words = Raise IndexError.
Proof.
  intro H. unfold shape_ok in H.
  assert (H0 : length colors <> O) by tauto.
  destruct (Nat.eq_dec (length colors) (ncols words)) as [Hc|Hc].
  - apply get_poss_words_bad_guess; [exact H0|exact Hc|]. tauto.
  - apply get_poss_words_bad_colors; assumption.
Qed.

(** A call that returns had an empty pattern or masks of the right
    length. *)
Lemma get_poss_words_ok_shape (guess colors : list Z) (words words' : ndarray2) :
  get_poss_words guess colors words = Ok words' ->
  shape_ok guess colors (ncols words).
Proof.
  intro H. destruct (shape_dec guess colors (ncols words)) as [S|S];
    [exact S|].
  rewrite (get_poss_words_bad_shape _ _ _ S) in H. discriminate.
Qed.

Lemma get_poss_words_ok_rows (guess colors : list Z) (words words' : ndarray2) :
  get_poss_words guess colors words = Ok words' ->
  words' = {| ncols := ncols words;
              rows := filter (consistent guess colors) (rows words) |}.
Proof.
  intro H. pose proof (get_poss_words_ok_shape _ _ _ _ H) as S.
  rewrite (get_poss_words_shape_ok _ _ _ S) in H. congruence.
Qed.

Lemma zip_with_map {A B C D : Type} (f : A -> B -> C) (g1 : D -> A)
  (g2 : D -> B) (l : list D) :
  zip_with f (map g1 l) (map g2 l) = map (fun d => f (g1 d) (g2 d)) l.
Proof.
  induction l as [|d l IH]; simpl; [reflexivity|].
  rewrite IH. reflexivity.
Qed.

Lemma forallb_id_map {A : Type} (p : A -> bool) (l : list A) :
  forallb (fun b : bool => b) (map p l) = forallb p l.
Proof.
  induction l as [|x l IH]; simpl; [reflexivity|].
  rewrite IH. reflexivity.
Qed.

Lemma in_insert_unique (x y : Z) (l : list Z) :
  In y (insert_unique x l) <-> y = x \/ In y l.
Proof.
  induction l as [|z l IH]; simpl.
  - intuition.
  - destruct (Z.ltb_spec x z).
    + simpl. intuition.
    + destruct (Z.eqb_spec x z) as [->|N]; simpl; [intuition|].
      rewrite IH. intuition.
Qed.

Lemma in_np_unique (y : Z) (l : list Z) : In y (np_unique l) <-> In y l.
Proof.
  induction l as [|x l IH]; simpl; [reflexivity|].
  rewrite in_insert_unique, IH. intuition.
Qed.

Lemma count_eq_pos_in (a : list Z) (u : Z) :
  (1 <= count_eq a u)%nat <-> In u a.
Proof.
  unfold count_eq. induction a as [|x a IH]; simpl.
  - split; [lia|tauto].
  - destruct (Z.eqb_spec x u) as [->|N]; simpl.
    + split; [auto|lia].
    + rewrite IH. intuition.
Qed.

Lemma yellow_ok_iff (guess colors w : list Z) :
  yellow_ok guess colors w = true <->
  forall u, In u (compress (mask_eq colors Y_UNICODE) guess) ->
    (count_eq (compress (mask_eq colors Y_UNICODE) guess) u
     <= count_eq (compress (invert (mask_eq colors G_UNICODE)) w) u)%nat.
Proof.
  unfold yellow_ok, counts_of. rewrite zip_with_map, forallb_id_map.
  rewrite forallb_forall. split; intros H u Hu.
  - apply Nat.leb_le, H, in_np_unique, Hu.
  - apply Nat.leb_le, H, in_np_unique, Hu.
Qed.

Lemma black_ok_iff (guess colors w : list Z) :
  black_ok guess colors w = true <->
  forall u, In u (compress (mask_eq colors B_UNICODE) guess) ->
    (count_eq (compress (invert (mask_eq colors G_UNICODE)) w) u
     <= count_eq (compress (mask_eq colors Y_UNICODE) guess) u)%nat.
Proof.
  unfold black_ok, counts_of. rewrite zip_with_map, forallb_id_map.
  rewrite forallb_forall. split; intros H u Hu.
  - apply Nat.leb_le, H, in_np_unique, Hu.
  - apply Nat.leb_le, H, in_np_unique, Hu.
Qed.

Lemma length_filter_map {A B : Type} (f : A -> B) (p : B -> bool) (l : list A) :
  length (filter p (map f l)) = length (filter (fun x => p (f x)) l).
Proof.
  induction l as [|x l IH]; simpl; [reflexivity|].
  destruct (p (f x)); simpl; rewrite IH; reflexivity.
Qed.

Lemma count_positions_S (n : nat) (p : nat -> bool) :
  count_positions (S n) p
  = ((if p O then 1 else 0) + count_positions n (fun i => p (S i)))%nat.
Proof.
  unfold count_positions. cbn [seq]. rewrite <- seq_shift. cbn [filter].
  destruct (p O); cbn [length]; rewrite length_filter_map; reflexivity.
Qed.

Lemma count_eq_compress (p : Z -> bool) (colors a : list Z) (u : Z) :
  length colors = length a ->
  count_eq (compress (map p colors) a) u
  = count_positions (length a)
      (fun i => p (nth i colors 0) && (nth i a 0 =? u)).
Proof.
  revert a.
  induction colors as [|c colors IH]; intros [|x a] H; try discriminate.
  - reflexivity.
  - injection H as H. specialize (IH a H).
    cbn [length]. rewrite count_positions_S. cbn [nth map compress].
    rewrite <- IH. unfold count_eq.
    destruct (p c); cbn [andb filter]; [destruct (x =? u)|]; reflexivity.
Qed.

Lemma present_count_compress (guess colors : list Z) (u : Z) :
  length guess = length colors ->
  count_eq (compress (mask_eq colors Y_UNICODE) guess) u
  = present_count guess colors u.
Proof.
  intro H. unfold mask_eq, present_count.
  apply (count_eq_compress (fun c => c =? Y_UNICODE)). symmetry. exact H.
Qed.

Lemma absent_count_compress (guess colors : list Z) (u : Z) :
  length guess = length colors ->
  count_eq (compress (mask_eq colors B_UNICODE) guess) u
  = absent_count guess colors u.
Proof.
  intro H. unfold mask_eq, absent_count.
  apply (count_eq_compress (fun c => c =? B_UNICODE)). symmetry. exact H.
Qed.

Lemma non_exact_count_compress (colors w : list Z) (u : Z) :
  length w = length colors ->
  count_eq (compress (invert (mask_eq colors G_UNICODE)) w) u
  = non_exact_count colors w u.
Proof.
  intro H. unfold invert, mask_eq, non_exact_count. rewrite map_map.
  apply (count_eq_compress (fun c => negb (c =? G_UNICODE))).
  symmetry. exact H.
Qed.

Lemma wf_array_in (a : ndarray2) (w : list Z) :
  wf_array a -> In w (rows a) -> length w = ncols a.
Proof.
  unfold wf_array. rewrite Forall_forall. intros H Hw. exact (H w Hw).
Qed.

Lemma count_positions_none (n : nat) (p : nat -> bool) :
  (forall i, p i = false) -> count_positions n p = O.
Proof.
  intro H. unfold count_positions.
  induction (seq 0 n) as [|i l IH]; cbn [filter]; [reflexivity|].
  rewrite H. exact IH.
Qed.

Lemma nth_no_colors (colors : list Z) (i : nat) :
  length colors = O -> nth i colors 0 = 0.
Proof.
  destruct colors; [|discriminate]. destruct i; reflexivity.
Qed.

Lemma present_count_no_colors (guess colors : list Z) (letter : Z) :
  length colors = O -> present_count guess colors letter = O.
Proof.
  intro H. unfold present_count. apply count_positions_none. intro i.
  rewrite (nth_no_colors _ _ H). reflexivity.
Qed.

Lemma absent_count_no_colors (guess colors : list Z) (letter : Z) :
  length colors = O -> absent_count guess colors letter = O.
Proof.
  intro H. unfold absent_count. apply count_positions_none. intro i.
  rewrite (nth_no_colors _ _ H). reflexivity.
Qed.

(** C2: a word that [get_poss_words] keeps has every letter of the
    PRESENT (yellow) positions of the guess, outside the EXACT (green)
    positions, at least as often as the letter is PRESENT in the guess; a
    candidate that has one of them less often is not kept. *)
Theorem present_lower_bound (guess colors : list Z) (words words' : ndarray2) :
  wf_array words ->
  get_poss_words guess colors words = Ok words' ->
  (forall w, In w (rows words') ->
     forall letter, (1 <= present_count guess colors letter)%nat ->
       (present_count guess colors letter
        <= non_exact_count colors w letter)%nat)
  /\
  (forall w letter, In w (rows words) ->
     (1 <= present_count guess colors letter)%nat ->
     (non_exact_count colors w letter
      < present_count guess colors letter)%nat ->
     ~ In w (rows words')).
Proof.
  intros Hwf Hok.
  pose proof (get_poss_words_ok_shape _ _ _ _ Hok) as Hshape.
  rewrite (get_poss_words_ok_rows _ _ _ _ Hok). cbn [rows].
  assert (Hkeep : forall w, In w (filter (consistent guess colors) (rows words)) ->
            forall letter, (1 <= present_count guess colors letter)%nat ->
              (present_count guess colors letter
               <= non_exact_count colors w letter)%nat).
  { intros w Hw letter Hk. destruct Hshape as [H0|[Hc Hg]].
    { rewrite (present_count_no_colors _ _ _ H0) in Hk. lia. }
    apply filter_In in Hw. destruct Hw as [Hin Hcons].
    unfold consistent in Hcons. rewrite !andb_true_iff in Hcons.
    destruct Hcons as [[[_ _] Hy] _].
    rewrite yellow_ok_iff in Hy.
    rewrite <- (present_count_compress _ _ _ Hg) in *.
    rewrite <- (non_exact_count_compress colors w letter)
      by (rewrite (wf_array_in _ _ Hwf Hin); symmetry; exact Hc).
    apply Hy. apply count_eq_pos_in. exact Hk. }
  split; [exact Hkeep|].
  intros w letter _ Hk Hlt Hw. specialize (Hkeep w Hw letter Hk). lia.
Qed.

(** C3: a word that [get_poss_words] keeps has every letter of the ABSENT
    (black) positions of the guess, outside the EXACT (green) positions, at
    most as often as the letter is PRESENT (yellow) in the guess; a
    candidate that has one of them more often is not kept. *)
Theorem absent_upper_bound (guess colors : list Z) (words words' : ndarray2) :
  wf_array words ->
  get_poss_words guess colors words = Ok words' ->
  (forall w, In w (rows words') ->
     forall letter, (1 <= absent_count guess colors letter)%nat ->
       (non_exact_count colors w letter
        <= present_count guess colors letter)%nat)
  /\
  (forall w letter, In w (rows words) ->
     (1 <= absent_count guess colors letter)%nat ->
     (present_count guess colors letter
      < non_exact_count colors w letter)%nat ->
     ~ In w (rows words')).
Proof.
  intros Hwf Hok.
  pose proof (get_poss_words_ok_shape _ _ _ _ Hok) as Hshape.
  rewrite (get_poss_words_ok_rows _ _ _ _ Hok). cbn [rows].
  assert (Hkeep : forall w, In w (filter (consistent guess colors) (rows words)) ->
            forall letter, (1 <= absent_count guess colors letter)%nat ->
              (non_exact_count colors w letter
               <= present_count guess colors letter)%nat).
  { intros w Hw letter Hk. destruct Hshape as [H0|[Hc Hg]].
    { rewrite (absent_count_no_colors _ _ _ H0) in Hk. lia. }
    apply filter_In in Hw. destruct Hw as [Hin Hcons].
    unfold consistent in Hcons. rewrite !andb_true_iff in Hcons.
    destruct Hcons as [_ Hb].
    rewrite black_ok_iff in Hb.
    rewrite <- (present_count_compress _ _ _ Hg).
    rewrite <- (absent_count_compress _ _ _ Hg) in Hk.
    rewrite <- (non_exact_count_compress colors w letter)
      by (rewrite (wf_array_in _ _ Hwf Hin); symmetry; exact Hc).
    apply Hb. apply count_eq_pos_in. exact Hk. }
  split; [exact Hkeep|].
  intros w letter _ Hk Hlt Hw. specialize (Hkeep w Hw letter Hk). lia.
Qed.

(** ** Running the filter twice, and on the guess itself *)

Lemma filter_twice {A : Type} (p : A -> bool) (l : list A) :
  filter p (filter p l) = filter p l.
Proof.
  rewrite filter_filter_andb. apply filter_ext. intro x.
  destruct (p x); reflexivity.
Qed.

(** C7: filtering the result of [get_poss_words] again with the same
    guess and colours gives the same result; when the first call raises,
    so does the composition. *)
Theorem get_poss_words_idempotent (guess colors : list Z) (words : ndarray2) :
  (words' <- get_poss_words guess colors words ;;
   get_poss_words guess colors words')
  = get_poss_words guess colors words.
Proof.
  destruct (get_poss_words guess colors words) as [words'|e] eqn:E;
    cbn [bind]; [|reflexivity].
  pose proof (get_poss_words_ok_shape _ _ _ _ E) as Hshape.
  rewrite (get_poss_words_ok_rows _ _ _ _ E).
  rewrite get_poss_words_shape_ok by exact Hshape. cbn [ncols rows].
  rewrite filter_twice. reflexivity.
Qed.

Lemma mask_eq_repeat_same (v : Z) (n : nat) :
  mask_eq (repeat v n) v = repeat true n.
Proof.
  unfold mask_eq. induction n as [|n IH]; simpl; [reflexivity|].
  rewrite Z.eqb_refl, IH. reflexivity.
Qed.

Lemma mask_eq_repeat_other (v u : Z) (n : nat) :
  v <> u -> mask_eq (repeat v n) u = repeat false n.
Proof.
  intro N. unfold mask_eq. induction n as [|n IH]; simpl; [reflexivity|].
  rewrite IH. destruct (Z.eqb_spec v u); [contradiction|reflexivity].
Qed.

Lemma compress_all {A : Type} (a : list A) :
  compress (repeat true (length a)) a = a.
Proof. induction a as [|x a IH]; simpl; [reflexivity|]. rewrite IH. reflexivity. Qed.

Lemma compress_none {A : Type} (n : nat) (a : list A) :
  compress (repeat false n) a = [].
Proof.
  revert a. induction n as [|n IH]; intros [|x a]; simpl; auto.
Qed.

Lemma invert_repeat (b : bool) (n : nat) :
  invert (repeat b n) = repeat (negb b) n.
Proof. unfold invert. apply map_repeat. Qed.

Lemma zip_with_eqb_refl (a : list Z) :
  forallb (fun b : bool => b) (zip_with Z.eqb a a) = true.
Proof.
  induction a as [|x a IH]; simpl; [reflexivity|].
  rewrite Z.eqb_refl, IH. reflexivity.
Qed.

Lemma consistent_all_green (g : list Z) :
  consistent g (repeat G_UNICODE (length g)) g = true.
Proof.
  unfold consistent, green_ok, not_at_index_ok, yellow_ok, black_ok.
  cbv zeta. rewrite mask_eq_repeat_same.
  rewrite !mask_eq_repeat_other by discriminate.
  rewrite invert_repeat. cbn [negb].
  rewrite !compress_none, compress_all, zip_with_eqb_refl. reflexivity.
Qed.

(** C8: a candidate array that contains [g], filtered with guess [g] and
    the all-green pattern, still contains [g]. *)
Theorem get_poss_words_keeps_guess (g : list Z) (words : ndarray2) :
  wf_array words ->
  In g (rows words) ->
  exists words',
    get_poss_words g (repeat G_UNICODE (ncols words)) words = Ok words'
    /\ In g (rows words').
Proof.
  intros Hwf Hin. pose proof (wf_array_in _ _ Hwf Hin) as Hlen.
  eexists. split.
  - apply get_poss_words_rows; rewrite repeat_length; [reflexivity|exact Hlen].
  - cbn [rows]. apply filter_In. split; [exact Hin|].
    rewrite <- Hlen. apply consistent_all_green.
Qed.

(** ** What makes the filter raise *)

Lemma consistent_no_colors (guess colors w : list Z) :
  length colors = O -> consistent guess colors w = true.
Proof.
  destruct colors; [|discriminate]. intros _. reflexivity.
Qed.

Lemma filter_all {A : Type} (p : A -> bool) (l : list A) :
  (forall x, p x = true) -> filter p l = l.
Proof.
  intro H. induction l as [|x l IH]; cbn [filter]; [reflexivity|].
  rewrite H, IH. reflexivity.
Qed.

Lemma get_poss_words_no_colors (guess : list Z) (words : ndarray2) :
  get_poss_words guess [] words = Ok words.
Proof.
  rewrite get_poss_words_shape_ok by (left; reflexivity).
  rewrite filter_all by (intro w; apply consistent_no_colors; reflexivity).
  destruct words. reflexivity.
Qed.

(** C4, as the code has it: the filter checks nothing itself.  It raises,
    with numpy's [IndexError], exactly when the colour pattern is not
    empty and has not the width of [words], or is not empty and the guess
    has not its length.  An empty pattern is accepted with any guess and
    every row is returned.  The symbols of the pattern and of the guess are
    never checked: with the lengths accepted, whatever the symbols, the
    rows that pass the four tests are returned. *)
Theorem get_poss_words_raises_on_length_only (guess colors : list Z)
  (words : ndarray2) :
  get_poss_words guess colors words
  = (if ((length colors =? 0)
         || ((length colors =? ncols words)
             && (length guess =? length colors)))%nat
     then Ok {| ncols := ncols words;
                rows := filter (consistent guess colors) (rows words) |}
     else Raise IndexError)
  /\ get_poss_words guess [] words = Ok words.
Proof.
  split; [|apply get_poss_words_no_colors].
  destruct (shape_dec guess colors (ncols words)) as [S|S].
  - rewrite (get_poss_words_shape_ok _ _ _ S). unfold shape_ok in S.
    rewrite <- !Nat.eqb_eq in S.
    destruct (length colors =? 0)%nat; [reflexivity|].
    destruct S as [S|[-> ->]]; [discriminate|reflexivity].
  - rewrite (get_poss_words_bad_shape _ _ _ S). unfold shape_ok in S.
    rewrite <- !Nat.eqb_eq in S.
    destruct (length colors =? 0)%nat; [tauto|].
    destruct (length colors =? ncols words)%nat; [|reflexivity].
    destruct (length guess =? length colors)%nat; [tauto|reflexivity].
Qed.

(** C4 fails as stated: a pattern with the symbol [x] and a guess with the
    digit [1] raise nothing; a filtered array is returned. *)
Lemma get_poss_words_accepts_bad_symbols :
  get_poss_words (get_unicode "sp1ed") (get_unicode "bbxyy")
    (words_of ["abide"; "erode"; "steal"; "creed"; "idiot"]%string)
  = Ok (words_of ["abide"; "erode"]%string).
Proof. vm_compute. reflexivity. Qed.

(** ** The table of patterns *)

Lemma in_product_pools {A : Type} (pools : list (list A))
  (result : list (list A)) (f : list A) :
  In f (product_pools pools result) <->
  exists x ys, In x result /\ f = x ++ ys
               /\ Forall2 (fun y pool => In y pool) ys pools.
Proof.
  revert result. induction pools as [|pool rest IH]; intro result; cbn [product_pools].
  - split.
    + intro H. exists f, []. rewrite app_nil_r. auto.
    + intros (x & ys & Hx & -> & Hys). inversion Hys. rewrite app_nil_r. exact Hx.
  - rewrite IH. split.
    + intros (x' & ys & Hx' & -> & Hys).
      apply in_flat_map in Hx'. destruct Hx' as (x & Hx & Hy).
      apply in_map_iff in Hy. destruct Hy as (y & <- & Hy).
      exists x, (y :: ys). rewrite <- app_assoc. auto.
    + intros (x & ys & Hx & -> & Hys).
      inversion Hys as [|y pool' ys' rest' Hy Hys' E1 E2]; subst.
      exists (x ++ [y]), ys'. rewrite <- app_assoc. repeat split; auto.
      apply in_flat_map. exists x. split; [exact Hx|].
      apply in_map_iff. exists y. auto.
Qed.

Lemma Forall2_repeat_r {A : Type} (pool : list A) (n : nat) (f : list A) :
  Forall2 (fun y p => In y p) f (repeat pool n)
  <-> length f = n /\ Forall (fun y => In y pool) f.
Proof.
  revert f. induction n as [|n IH]; intro f; cbn [repeat].
  - split.
    + intro H. inversion H. auto.
    + intros [H _]. destruct f; [constructor|discriminate].
  - split.
    + intro H. inversion H as [|y p f' r Hy Hf]; subst.
      apply IH in Hf. destruct Hf. cbn [length]. auto.
    + intros [Hl Hf]. destruct f as [|y f]; [discriminate|].
      inversion Hf; subst. constructor; [assumption|].
      apply IH. injection Hl as Hl. auto.
Qed.

Lemma in_product {A : Type} (pool : list A) (n : nat) (f : list A) :
  In f (product pool n) <-> length f = n /\ Forall (fun y => In y pool) f.
Proof.
  unfold product. rewrite in_product_pools. rewrite <- Forall2_repeat_r.
  split.
  - intros (x & ys & [<-|[]] & -> & H). exact H.
  - intro H. exists [], f. cbn. auto.
Qed.

(** A colour of the three-valued alphabet. *)
Lemma in_POSSIBLE_COLORS (f : list Z) :
  In f POSSIBLE_COLORS <->
  length f = 5%nat
  /\ Forall (fun c => c = G_UNICODE \/ c = Y_UNICODE \/ c = B_UNICODE) f.
Proof.
  unfold POSSIBLE_COLORS. rewrite in_product.
  split; intros [Hl Hf]; (split; [exact Hl|]);
    revert Hf; apply Forall_impl; intro c; cbn; intuition.
Qed.

Lemma length_POSSIBLE_COLORS : length POSSIBLE_COLORS = 243%nat.
Proof. reflexivity. Qed.

Lemma NoDup_POSSIBLE_COLORS : NoDup POSSIBLE_COLORS.
Proof.
  assert (H : nodup (list_eq_dec Z.eq_dec) POSSIBLE_COLORS = POSSIBLE_COLORS)
    by (vm_compute; reflexivity).
  rewrite <- H. apply NoDup_nodup.
Qed.

(** ** Counting rows over patterns *)

Lemma list_sum_cons_eq (a : nat) (l : list nat) :
  list_sum (a :: l) = (a + list_sum l)%nat.
Proof. reflexivity. Qed.

Lemma list_sum_filter_cons {A B : Type} (p : A -> B -> bool) (fs : list A)
  (w : B) (ws : list B) :
  list_sum (map (fun f => length (filter (p f) (w :: ws))) fs)
  = (length (filter (fun f => p f w) fs)
     + list_sum (map (fun f => length (filter (p f) ws)) fs))%nat.
Proof.
  induction fs as [|f fs IH]; [reflexivity|].
  cbn [map]. rewrite !list_sum_cons_eq, IH. cbn [filter].
  destruct (p f w); cbn [length]; lia.
Qed.

Lemma list_sum_swap {A B : Type} (p : A -> B -> bool) (fs : list A)
  (ws : list B) :
  list_sum (map (fun f => length (filter (p f) ws)) fs)
  = list_sum (map (fun w => length (filter (fun f => p f w) fs)) ws).
Proof.
  induction ws as [|w ws IH].
  - cbn. induction fs as [|f fs IHf]; cbn; auto.
  - rewrite list_sum_filter_cons, IH. reflexivity.
Qed.

Lemma length_filter_at_least_one {A : Type} (p : A -> bool) (l : list A)
  (x : A) :
  In x l -> p x = true -> (1 <= length (filter p l))%nat.
Proof.
  intros Hin Hp. assert (H : In x (filter p l)) by (apply filter_In; auto).
  destruct (filter p l); [contradiction|cbn; lia].
Qed.

Lemma length_filter_exactly_one {A : Type} (p : A -> bool) (l : list A)
  (x : A) :
  NoDup l -> In x l -> p x = true ->
  (forall y, In y l -> p y = true -> y = x) ->
  length (filter p l) = 1%nat.
Proof.
  intros Hnd Hin Hp Huniq.
  assert (Hnd' : NoDup (filter p l)) by (apply NoDup_filter; exact Hnd).
  assert (Hx : In x (filter p l)) by (apply filter_In; auto).
  assert (Hall : forall y, In y (filter p l) -> y = x).
  { intros y Hy. apply filter_In in Hy. destruct Hy. auto. }
  destruct (filter p l) as [|a [|b t]]; [contradiction|reflexivity|].
  exfalso. inversion Hnd' as [|? ? Hna _]; subst. apply Hna.
  rewrite (Hall a), (Hall b); cbn; auto.
Qed.

Lemma total_poss_words_sum (patterns : list (list Z)) (guess : list Z)
  (words : ndarray2) :
  length guess = ncols words ->
  Forall (fun f => length f = ncols words) patterns ->
  total_poss_words patterns guess words
  = Ok (list_sum
          (map (fun f => length (filter (consistent guess f) (rows words)))
             patterns)).
Proof.
  intros Hg Hf. induction Hf as [|f patterns Hlen _ IH];
    cbn [total_poss_words map]; [reflexivity|].
  rewrite get_poss_words_rows by congruence.
  rewrite IH, list_sum_cons_eq. reflexivity.
Qed.

(** ** Every candidate is consistent with the colouring of the game *)

Lemma length_paint (pool guess w : list Z) :
  length guess = length w -> length (paint pool guess w) = length guess.
Proof.
  revert pool w. induction guess as [|x guess IH]; intros pool [|y w] H;
    try discriminate; [reflexivity|].
  injection H as H. cbn [paint].
  destruct (x =? y); [|destruct (existsb _ pool)]; cbn [length];
    rewrite IH; auto.
Qed.

Lemma paint_alphabet (pool guess w : list Z) :
  Forall (fun c => c = G_UNICODE \/ c = Y_UNICODE \/ c = B_UNICODE)
    (paint pool guess w).
Proof.
  revert pool w. induction guess as [|x guess IH]; intros pool [|y w];
    cbn [paint]; try constructor.
  destruct (x =? y); [|destruct (existsb _ pool)]; constructor; auto.
Qed.

Lemma paint_green_mask (pool guess w : list Z) :
  mask_eq (paint pool guess w) G_UNICODE = zip_with Z.eqb guess w.
Proof.
  unfold mask_eq. revert pool w.
  induction guess as [|x guess IH]; intros pool [|y w];
    cbn [paint zip_with map]; try reflexivity.
  destruct (x =? y); [|destruct (existsb _ pool)]; cbn [map];
    rewrite IH; reflexivity.
Qed.

Lemma invert_zip_eqb (guess w : list Z) :
  invert (zip_with Z.eqb guess w)
  = zip_with (fun x y => negb (x =? y)) guess w.
Proof.
  unfold invert. revert w. induction guess as [|x guess IH]; intros [|y w];
    cbn [zip_with map]; try reflexivity.
  rewrite IH. reflexivity.
Qed.

Lemma green_where_equal (guess w : list Z) :
  forallb (fun b : bool => b)
    (zip_with Z.eqb (compress (zip_with Z.eqb guess w) w)
       (compress (zip_with Z.eqb guess w) guess)) = true.
Proof.
  revert w. induction guess as [|x guess IH]; intros [|y w];
    cbn [zip_with compress]; try reflexivity.
  destruct (Z.eqb_spec x y) as [->|N]; [|apply IH].
  cbn [zip_with forallb]. rewrite Z.eqb_refl. apply IH.
Qed.

Lemma differ_where_not_equal (guess w : list Z) :
  forallb (fun b : bool => b)
    (zip_with (fun x y => negb (x =? y))
       (compress (zip_with (fun x y => negb (x =? y)) guess w) w)
       (compress (zip_with (fun x y => negb (x =? y)) guess w) guess)) = true.
Proof.
  revert w. induction guess as [|x guess IH]; intros [|y w];
    cbn [zip_with compress]; try reflexivity.
  destruct (Z.eqb_spec x y) as [->|N]; cbn [negb]; [apply IH|].
  cbn [zip_with forallb].
  destruct (Z.eqb_spec y x) as [E|_]; [symmetry in E; contradiction|].
  apply IH.
Qed.

Lemma existsb_eqb_in (x : Z) (pool : list Z) :
  existsb (fun z => z =? x) pool = true <-> In x pool.
Proof.
  rewrite existsb_exists. split.
  - intros (z & Hz & E). apply Z.eqb_eq in E. subst. exact Hz.
  - intro H. exists x. rewrite Z.eqb_refl. auto.
Qed.

Lemma count_eq_cons (x u : Z) (a : list Z) :
  count_eq (x :: a) u = ((if (x =? u)%Z then 1 else 0) + count_eq a u)%nat.
Proof. unfold count_eq. cbn [filter]. destruct (x =? u); reflexivity. Qed.

Lemma count_eq_remove_one (x u : Z) (pool : list Z) :
  In x pool ->
  count_eq pool u
  = ((if (x =? u)%Z then 1 else 0) + count_eq (remove_one x pool) u)%nat.
Proof.
  induction pool as [|y pool IH]; intro H; [contradiction|].
  cbn [remove_one]. destruct (Z.eqb_spec y x) as [->|N].
  - apply count_eq_cons.
  - destruct H as [E|H]; [contradiction|].
    rewrite !count_eq_cons, (IH H). lia.
Qed.

Lemma count_eq_not_in (x : Z) (pool : list Z) :
  ~ In x pool -> count_eq pool x = O.
Proof.
  intro H. pose proof (count_eq_pos_in pool x) as P.
  destruct (count_eq pool x); [reflexivity|].
  exfalso. apply H, P. lia.
Qed.

(** The yellow letters of the colouring never exceed the pool. *)
Lemma paint_yellow_le_pool (pool guess w : list Z) (u : Z) :
  (count_eq (compress (mask_eq (paint pool guess w) Y_UNICODE) guess) u
   <= count_eq pool u)%nat.
Proof.
  unfold mask_eq. revert pool w.
  induction guess as [|x guess IH]; intros pool [|y w];
    cbn [paint map compress]; try (cbn; lia).
  destruct (x =? y).
  - cbn [map compress]. change (G_UNICODE =? Y_UNICODE) with false.
    cbn iota. apply IH.
  - destruct (existsb (fun z => z =? x) pool) eqn:E.
    + cbn [map compress]. change (Y_UNICODE =? Y_UNICODE) with true.
      cbn iota. apply existsb_eqb_in in E.
      rewrite count_eq_cons, (count_eq_remove_one x u pool E).
      specialize (IH (remove_one x pool) w). lia.
    + cbn [map compress]. change (B_UNICODE =? Y_UNICODE) with false.
      cbn iota. apply IH.
Qed.

(** A letter painted black has used up the pool. *)
Lemma paint_black_pool_le_yellow (pool guess w : list Z) (u : Z) :
  In u (compress (mask_eq (paint pool guess w) B_UNICODE) guess) ->
  (count_eq pool u
   <= count_eq (compress (mask_eq (paint pool guess w) Y_UNICODE) guess) u)%nat.
Proof.
  unfold mask_eq. revert pool w.
  induction guess as [|x guess IH]; intros pool [|y w];
    cbn [paint map compress]; try contradiction.
  destruct (x =? y).
  - cbn [map compress]. change (G_UNICODE =? Y_UNICODE) with false.
    change (G_UNICODE =? B_UNICODE) with false. cbn iota. apply IH.
  - destruct (existsb (fun z => z =? x) pool) eqn:E.
    + cbn [map compress]. change (Y_UNICODE =? Y_UNICODE) with true.
      change (Y_UNICODE =? B_UNICODE) with false. cbn iota.
      apply existsb_eqb_in in E. intro H.
      rewrite count_eq_cons, (count_eq_remove_one x u pool E).
      specialize (IH (remove_one x pool) w H). lia.
    + cbn [map compress]. change (B_UNICODE =? Y_UNICODE) with false.
      change (B_UNICODE =? B_UNICODE) with true. cbn iota.
      intros [<-|H]; [|apply IH; exact H].
      rewrite count_eq_not_in; [lia|].
      intro Hin. apply existsb_eqb_in in Hin. congruence.
Qed.

Lemma consistent_game_colors (guess w : list Z) :
  consistent guess (game_colors guess w) w = true.
Proof.
  unfold consistent. rewrite !andb_true_iff. repeat split.
  - unfold green_ok, game_colors. cbv zeta. rewrite paint_green_mask.
    apply green_where_equal.
  - unfold not_at_index_ok, game_colors. cbv zeta.
    rewrite paint_green_mask, invert_zip_eqb. apply differ_where_not_equal.
  - apply yellow_ok_iff. intros u _. unfold game_colors at 2.
    rewrite paint_green_mask, invert_zip_eqb. apply paint_yellow_le_pool.
  - apply black_ok_iff. intros u Hu. unfold game_colors at 1.
    rewrite paint_green_mask, invert_zip_eqb.
    apply paint_black_pool_le_yellow. exact Hu.
Qed.

Lemma game_colors_possible (guess w : list Z) :
  length guess = 5%nat -> length w = 5%nat ->
  In (game_colors guess w) POSSIBLE_COLORS.
Proof.
  intros Hg Hw. apply in_POSSIBLE_COLORS. split.
  - unfold game_colors. rewrite length_paint; congruence.
  - apply paint_alphabet.
Qed.

(** ** A guess without repeated letters: one pattern for each candidate *)

Lemma in_compress (p : Z -> bool) (cs a : list Z) (u : Z) :
  length cs = length a ->
  (In u (compress (map p cs) a) <->
   exists i, (i < length a)%nat /\ p (nth i cs 0) = true /\ nth i a 0 = u).
Proof.
  revert a. induction cs as [|c cs IH]; intros [|x a] H; try discriminate.
  - cbn. split; [tauto|]. intros (i & Hi & _). lia.
  - injection H as H. specialize (IH a H). cbn [map compress length].
    split.
    + intro Hin.
      assert (Hcases : (p c = true /\ x = u) \/ In u (compress (map p cs) a)).
      { destruct (p c); [destruct Hin; auto|auto]. }
      destruct Hcases as [[Hp E]|Hrest].
      * exists O. cbn. repeat split; auto. lia.
      * apply IH in Hrest. destruct Hrest as (i & Hi & Hp & E).
        exists (S i). cbn. repeat split; auto. lia.
    + intros ([|i] & Hi & Hp & E); cbn in Hp, E.
      * rewrite Hp. left. exact E.
      * assert (Hrest : In u (compress (map p cs) a)).
        { apply IH. exists i. repeat split; auto. lia. }
        destruct (p c); [right|]; exact Hrest.
Qed.

Lemma forallb_zip_compress (f : Z -> Z -> bool) (p : Z -> bool)
  (cs a b : list Z) :
  length cs = length a -> length cs = length b ->
  forallb (fun t : bool => t)
    (zip_with f (compress (map p cs) a) (compress (map p cs) b)) = true ->
  forall i, (i < length cs)%nat -> p (nth i cs 0) = true ->
    f (nth i a 0) (nth i b 0) = true.
Proof.
  revert a b. induction cs as [|c cs IH]; intros [|x a] [|y b] Ha Hb H i Hi Hp;
    try discriminate; cbn in Hi; [lia|].
  injection Ha as Ha. injection Hb as Hb. cbn [map compress] in H.
  destruct i as [|i]; cbn in Hp |- *.
  - rewrite Hp in H. cbn in H. apply andb_true_iff in H. tauto.
  - apply (IH a b Ha Hb); [|lia|exact Hp].
    destruct (p c); [|exact H].
    cbn in H. apply andb_true_iff in H. tauto.
Qed.

(** Green exactly where the word has the letter of the guess. *)
Lemma consistent_green_iff (guess colors w : list Z) (i : nat) :
  length guess = length colors -> length w = length colors ->
  consistent guess colors w = true ->
  (i < length colors)%nat ->
  (nth i colors 0 =? G_UNICODE) = (nth i w 0 =? nth i guess 0).
Proof.
  intros Hg Hw Hcons Hi. unfold consistent in Hcons.
  rewrite !andb_true_iff in Hcons. destruct Hcons as [[[H1 H2] _] _].
  unfold green_ok, not_at_index_ok, mask_eq, invert in H1, H2.
  cbv zeta in H1, H2. rewrite !map_map in H2.
  destruct (nth i colors 0 =? G_UNICODE) eqn:E.
  - symmetry.
    apply (forallb_zip_compress Z.eqb (fun c => c =? G_UNICODE)
             colors w guess); auto.
  - symmetry. apply negb_true_iff.
    apply (forallb_zip_compress (fun x y => negb (x =? y))
             (fun c => negb (c =? G_UNICODE)) colors w guess); auto.
    rewrite E. reflexivity.
Qed.

Lemma map_nth_ext_eq {A : Type} (f g : Z -> A) (l1 l2 : list Z) :
  length l1 = length l2 ->
  (forall i, (i < length l1)%nat -> f (nth i l1 0) = g (nth i l2 0)) ->
  map f l1 = map g l2.
Proof.
  revert l2. induction l1 as [|x l1 IH]; intros [|y l2] Hl H;
    try discriminate; [reflexivity|].
  cbn [map]. f_equal.
  - apply (H O). cbn. lia.
  - apply IH; [injection Hl; auto|].
    intros i Hi. apply (H (S i)). cbn. lia.
Qed.

Section Unique.

Variables guess w f1 f2 : list Z.

Hypothesis Hnodup : NoDup guess.
Hypothesis Hg1 : length guess = length f1.
Hypothesis Hw1 : length w = length f1.
Hypothesis Hlen : length f2 = length f1.
Hypothesis Hc1 : consistent guess f1 w = true.
Hypothesis Hc2 : consistent guess f2 w = true.

Lemma unique_green (i : nat) :
  (i < length f1)%nat ->
  (nth i f1 0 =? G_UNICODE) = (nth i f2 0 =? G_UNICODE).
Proof.
  intro Hi.
  rewrite (consistent_green_iff guess f1 w i) by auto.
  rewrite (consistent_green_iff guess f2 w i) by congruence.
  reflexivity.
Qed.

Lemma unique_non_exact :
  compress (invert (mask_eq f1 G_UNICODE)) w
  = compress (invert (mask_eq f2 G_UNICODE)) w.
Proof.
  f_equal. unfold invert, mask_eq. rewrite !map_map.
  apply map_nth_ext_eq; [symmetry; exact Hlen|].
  intros i Hi. rewrite unique_green by exact Hi. reflexivity.
Qed.

End Unique.

(** With a guess of distinct letters, a position that is yellow in one
    consistent pattern is not black in another. *)
Lemma unique_yellow (guess w f1 f2 : list Z) (i : nat) :
  NoDup guess ->
  length guess = length f1 -> length w = length f1 ->
  length f2 = length f1 ->
  consistent guess f1 w = true -> consistent guess f2 w = true ->
  (i < length f1)%nat ->
  nth i f1 0 = Y_UNICODE -> nth i f2 0 <> B_UNICODE.
Proof.
  intros Hnd Hg Hw Hl Hc1 Hc2 Hi Hy Hb.
  pose proof (unique_non_exact guess w f1 f2 Hg Hw Hl Hc1 Hc2) as Hnw.
  assert (Hy1 : yellow_ok guess f1 w = true).
  { unfold consistent in Hc1. rewrite !andb_true_iff in Hc1. tauto. }
  assert (Hb2 : black_ok guess f2 w = true).
  { unfold consistent in Hc2. rewrite !andb_true_iff in Hc2. tauto. }
  rewrite yellow_ok_iff in Hy1. rewrite black_ok_iff in Hb2.
  set (u := nth i guess 0).
  assert (Hin1 : In u (compress (mask_eq f1 Y_UNICODE) guess)).
  { unfold mask_eq. apply in_compress; [auto|].
    exists i. rewrite Hy. repeat split; auto. lia. }
  assert (Hin2 : In u (compress (mask_eq f2 B_UNICODE) guess)).
  { unfold mask_eq. apply in_compress; [congruence|].
    exists i. rewrite Hb. repeat split; auto. lia. }
  specialize (Hy1 u Hin1). specialize (Hb2 u Hin2).
  apply count_eq_pos_in in Hin1.
  assert (Hin3 : In u (compress (mask_eq f2 Y_UNICODE) guess)).
  { apply count_eq_pos_in. rewrite Hnw in Hy1. lia. }
  unfold mask_eq in Hin3. apply in_compress in Hin3; [|congruence].
  destruct Hin3 as (j & Hj & Hyj & E).
  assert (j = i).
  { apply (proj1 (NoDup_nth guess 0) Hnd); [exact Hj|lia|exact E]. }
  subst j. rewrite Hb in Hyj. discriminate.
Qed.

Lemma consistent_unique (guess w f1 f2 : list Z) :
  NoDup guess ->
  length guess = length f1 -> length w = length f1 ->
  length f2 = length f1 ->
  Forall (fun c => c = G_UNICODE \/ c = Y_UNICODE \/ c = B_UNICODE) f1 ->
  Forall (fun c => c = G_UNICODE \/ c = Y_UNICODE \/ c = B_UNICODE) f2 ->
  consistent guess f1 w = true -> consistent guess f2 w = true ->
  f1 = f2.
Proof.
  intros Hnd Hg Hw Hl Ha1 Ha2 Hc1 Hc2.
  apply (nth_ext f1 f2 0 0); [symmetry; exact Hl|]. intros i Hi.
  pose proof (unique_green guess w f1 f2 Hg Hw Hl Hc1 Hc2 i Hi) as Hgreen.
  pose proof (proj1 (Forall_nth _ f1) Ha1 i 0 Hi) as A1.
  assert (Hi2 : (i < length f2)%nat) by lia.
  pose proof (proj1 (Forall_nth _ f2) Ha2 i 0 Hi2) as A2.
  cbv beta in A1, A2.
  assert (Y12 : nth i f1 0 = Y_UNICODE -> nth i f2 0 <> B_UNICODE).
  { apply (unique_yellow guess w f1 f2 i); auto. }
  assert (Y21 : nth i f2 0 = Y_UNICODE -> nth i f1 0 <> B_UNICODE).
  { apply (unique_yellow guess w f2 f1 i); auto; congruence. }
  destruct A1 as [E1|[E1|E1]], A2 as [E2|[E2|E2]];
    rewrite E1, E2 in *; try reflexivity;
    try discriminate Hgreen;
    try (exfalso; apply Y12; reflexivity);
    try (exfalso; apply Y21; reflexivity).
Qed.

Lemma list_sum_at_least_length {A : Type} (h : A -> nat) (l : list A) :
  (forall x, In x l -> (1 <= h x)%nat) ->
  (length l <= list_sum (map h l))%nat.
Proof.
  induction l as [|x l IH]; intro H; [cbn; lia|].
  cbn [map length]. rewrite list_sum_cons_eq.
  pose proof (H x (or_introl eq_refl)).
  assert (length l <= list_sum (map h l))%nat
    by (apply IH; intros; apply H; right; assumption).
  lia.
Qed.

Lemma list_sum_all_one {A : Type} (h : A -> nat) (l : list A) :
  (forall x, In x l -> h x = 1%nat) ->
  list_sum (map h l) = length l.
Proof.
  induction l as [|x l IH]; intro H; [reflexivity|].
  cbn [map length]. rewrite list_sum_cons_eq.
  rewrite (H x (or_introl eq_refl)), IH; [reflexivity|].
  intros; apply H; right; assumption.
Qed.

Lemma POSSIBLE_COLORS_width :
  Forall (fun f : list Z => length f = 5%nat) POSSIBLE_COLORS.
Proof.
  apply Forall_forall. intros f Hf. apply in_POSSIBLE_COLORS in Hf. tauto.
Qed.

(** The counts that the filter gives for the 243 patterns add up to at
    least the number of candidates, and to exactly that number when the
    guess has no repeated letter. *)
Lemma total_poss_words_covers (guess : list Z) (words : ndarray2) :
  length guess = 5%nat ->
  ncols words = 5%nat ->
  wf_array words ->
  exists total,
    total_poss_words POSSIBLE_COLORS guess words = Ok total
    /\ (shape0 words <= total)%nat
    /\ (NoDup guess -> total = shape0 words).
Proof.
  intros Hg Hn Hwf. eexists. split; [|split].
  - apply total_poss_words_sum; [congruence|].
    rewrite Hn. exact POSSIBLE_COLORS_width.
  - rewrite list_sum_swap. unfold shape0.
    apply list_sum_at_least_length. intros w Hw.
    pose proof (wf_array_in _ _ Hwf Hw) as Hlen.
    apply (length_filter_at_least_one _ _ (game_colors guess w)).
    + apply game_colors_possible; congruence.
    + apply consistent_game_colors.
  - intro Hnd. rewrite list_sum_swap. unfold shape0.
    apply list_sum_all_one. intros w Hw.
    pose proof (wf_array_in _ _ Hwf Hw) as Hlen.
    assert (Hgc : In (game_colors guess w) POSSIBLE_COLORS)
      by (apply game_colors_possible; congruence).
    apply (length_filter_exactly_one _ _ (game_colors guess w)).
    + exact NoDup_POSSIBLE_COLORS.
    + exact Hgc.
    + apply consistent_game_colors.
    + intros f Hf Hcons.
      apply in_POSSIBLE_COLORS in Hf. destruct Hf as [Hfl Hfa].
      apply in_POSSIBLE_COLORS in Hgc. destruct Hgc as [Hgl Hga].
      apply (consistent_unique guess w); auto; try congruence.
      apply consistent_game_colors.
Qed.

(** ** The score of a guess *)

Lemma POSSIBLE_COLORS_all_patterns : POSSIBLE_COLORS = all_patterns 5.
Proof. reflexivity. Qed.

Lemma n_poss_words_rows (guess colors : list Z) (words : ndarray2) :
  length colors = ncols words ->
  length guess = length colors ->
  n_poss_words guess colors words
  = length (filter (consistent guess colors) (rows words)).
Proof.
  intros Hc Hg. unfold n_poss_words.
  rewrite get_poss_words_rows by assumption. reflexivity.
Qed.

Lemma truediv_pos (n d : nat) :
  d <> O ->
  exists q, truediv n d = Ok q /\ (q == Qnat n / Qnat d)%Q.
Proof.
  intro Hd. destruct d as [|d]; [contradiction|].
  eexists. split; [reflexivity|].
  unfold Qnat. rewrite Qmake_Qdiv.
  replace (Z.pos (Pos.of_nat (S d))) with (Z.of_nat (S d)); [reflexivity|].
  cbn [Z.of_nat]. rewrite Pos.of_nat_succ. reflexivity.
Qed.

Lemma entropy_loop_sum (patterns : list (list Z)) (guess : list Z)
  (words : ndarray2) (acc : Q) :
  length guess = ncols words ->
  Forall (fun f => length f = ncols words) patterns ->
  rows words <> [] ->
  exists q,
    entropy_loop patterns guess words acc = Ok q
    /\ (q == acc
            + Qsum (map (fun f =>
                           Qnat (n_poss_words guess f words)
                           / Qnat (shape0 words)
                           * Qnat (n_poss_words guess f words))
                      patterns))%Q.
Proof.
  intros Hg Hf Hne. revert acc.
  induction Hf as [|f patterns Hlen _ IH]; intro acc; cbn [entropy_loop map Qsum].
  - exists acc. split; [reflexivity|]. ring.
  - rewrite get_poss_words_rows by congruence. cbn [bind].
    rewrite n_poss_words_rows by congruence.
    unfold shape0 at 1 3. cbn [rows].
    set (n := length (filter (consistent guess f) (rows words))).
    destruct (truediv_pos n (shape0 words)) as (frac & Hfrac & Efrac).
    { unfold shape0. destruct (rows words); [contradiction|discriminate]. }
    rewrite Hfrac. cbn [bind].
    destruct (IH (acc + frac * inject_Z (Z.of_nat n))%Q) as (q & Hq & Eq).
    exists q. split; [exact Hq|].
    rewrite Eq, Efrac. unfold Qnat. ring.
Qed.

Lemma calc_guess_entropy_sum (guess : list Z) (words : ndarray2) :
  length guess = 5%nat ->
  ncols words = 5%nat ->
  rows words <> [] ->
  exists q,
    calc_guess_entropy guess words = Ok q
    /\ (q == expected_remaining guess words)%Q.
Proof.
  intros Hg Hn Hne. unfold calc_guess_entropy, expected_remaining.
  destruct (entropy_loop_sum POSSIBLE_COLORS guess words 0%Q) as (q & Hq & Eq).
  - congruence.
  - rewrite Hn. exact POSSIBLE_COLORS_width.
  - exact Hne.
  - exists q. split; [exact Hq|].
    rewrite Eq, POSSIBLE_COLORS_all_patterns. ring.
Qed.

Lemma all_patterns_complete (f : list Z) :
  In f (all_patterns 5) <->
  length f = 5%nat
  /\ Forall (fun c => c = G_UNICODE \/ c = Y_UNICODE \/ c = B_UNICODE) f.
Proof. rewrite <- POSSIBLE_COLORS_all_patterns. apply in_POSSIBLE_COLORS. Qed.

Lemma Qnat_nonneg (n : nat) : (0 <= Qnat n)%Q.
Proof.
  unfold Qnat, Qle. cbn. lia.
Qed.

Lemma Qsum_nonneg (l : list Q) :
  Forall (fun x => (0 <= x)%Q) l -> (0 <= Qsum l)%Q.
Proof.
  induction 1 as [|x l Hx _ IH]; cbn [Qsum]; [apply Qle_refl|].
  replace 0%Q with (0 + 0)%Q by reflexivity. apply Qplus_le_compat; assumption.
Qed.

Lemma expected_remaining_nonneg (guess : list Z) (words : ndarray2) :
  (0 <= expected_remaining guess words)%Q.
Proof.
  unfold expected_remaining. apply Qsum_nonneg.
  apply Forall_forall. intros x Hx. apply in_map_iff in Hx.
  destruct Hx as (f & <- & _).
  apply Qmult_le_0_compat; [|apply Qnat_nonneg].
  unfold Qdiv. apply Qmult_le_0_compat; [apply Qnat_nonneg|].
  apply Qinv_le_0_compat, Qnat_nonneg.
Qed.

(** C10: [calc_guess_entropy] returns a score, which is not negative, for
    every non-empty candidate array, and raises [ZeroDivisionError] for
    the empty one. *)
Theorem calc_guess_entropy_total_iff_nonempty (guess : list Z)
  (words : ndarray2) :
  length guess = 5%nat ->
  ncols words = 5%nat ->
  (rows words <> [] ->
   exists q, calc_guess_entropy guess words = Ok q /\ (0 <= q)%Q)
  /\ (rows words = [] ->
      calc_guess_entropy guess words = Raise ZeroDivisionError).
Proof.
  intros Hg Hn. split.
  - intro Hne.
    destruct (calc_guess_entropy_sum guess words Hg Hn Hne) as (q & Hq & Eq).
    exists q. split; [exact Hq|]. rewrite Eq. apply expected_remaining_nonneg.
  - intro Hempty. unfold calc_guess_entropy.
    pose proof POSSIBLE_COLORS_width as W.
    destruct POSSIBLE_COLORS as [|f rest] eqn:E; [discriminate E|].
    inversion W as [|? ? Hf _]; subst.
    cbn [entropy_loop]. rewrite get_poss_words_rows by congruence.
    cbn [bind]. unfold shape0. cbn [rows]. rewrite Hempty. reflexivity.
Qed.

(** ** The ranking *)

Lemma insert_ind_perm (v : list Q) (i : nat) (l : list nat) :
  Permutation (insert_ind v i l) (i :: l).
Proof.
  induction l as [|j l IH]; cbn [insert_ind]; [reflexivity|].
  destruct (Qle_bool (nth j v 0%Q) (nth i v 0%Q)); [|reflexivity].
  rewrite IH. apply perm_swap.
Qed.

Lemma insert_ind_sorted (v : list Q) (i : nat) (l : list nat) :
  StronglySorted (key_le v) l ->
  StronglySorted (key_le v) (insert_ind v i l).
Proof.
  induction 1 as [|j l Hs IH Hj]; cbn [insert_ind].
  - repeat constructor.
  - destruct (Qle_bool (nth j v 0%Q) (nth i v 0%Q)) eqn:E.
    + constructor; [exact IH|].
      apply Forall_forall. intros k Hk.
      apply (Permutation_in _ (insert_ind_perm v i l)) in Hk.
      destruct Hk as [<-|Hk].
      * apply Qle_bool_iff. exact E.
      * rewrite Forall_forall in Hj. apply Hj. exact Hk.
    + assert (Hlt : (nth i v 0 < nth j v 0)%Q).
      { apply Qnot_le_lt. intro H. apply Qle_bool_iff in H. congruence. }
      constructor; [constructor; assumption|].
      constructor; [apply Qlt_le_weak; exact Hlt|].
      revert Hj. apply Forall_impl. intros k Hk. unfold key_le in *.
      apply Qle_trans with (nth j v 0%Q); [apply Qlt_le_weak|]; assumption.
Qed.

Lemma fold_insert_perm (v : list Q) (l acc : list nat) :
  Permutation (fold_left (fun sorted i => insert_ind v i sorted) l acc)
    (l ++ acc).
Proof.
  revert acc. induction l as [|i l IH]; intro acc; cbn [fold_left app];
    [reflexivity|].
  rewrite IH, insert_ind_perm. symmetry. apply Permutation_middle.
Qed.

Lemma fold_insert_sorted (v : list Q) (l acc : list nat) :
  StronglySorted (key_le v) acc ->
  StronglySorted (key_le v)
    (fold_left (fun sorted i => insert_ind v i sorted) l acc).
Proof.
  revert acc. induction l as [|i l IH]; intros acc H; cbn [fold_left];
    [exact H|].
  apply IH, insert_ind_sorted, H.
Qed.

Lemma argsort_perm (v : list Q) : Permutation (argsort v) (seq 0 (length v)).
Proof.
  unfold argsort. rewrite fold_insert_perm, app_nil_r. reflexivity.
Qed.

Lemma argsort_sorted (v : list Q) : StronglySorted (key_le v) (argsort v).
Proof. unfold argsort. apply fold_insert_sorted. constructor. Qed.

Lemma take_in_range {A : Type} (d : A) (inds : list nat) (a : list A) :
  Forall (fun i => (i < length a)%nat) inds ->
  take inds a = Ok (map (fun i => nth i a d) inds).
Proof.
  unfold take. induction 1 as [|i inds Hi _ IH]; cbn [mapM map];
    [reflexivity|].
  rewrite IH. rewrite (nth_error_nth' a d Hi). reflexivity.
Qed.

Lemma combine_nth_seq {A B : Type} (da : A) (db : B) (a : list A)
  (b : list B) :
  length a = length b ->
  map (fun i => (nth i a da, nth i b db)) (seq 0 (length a)) = combine a b.
Proof.
  revert b. induction a as [|x a IH]; intros [|y b] H; try discriminate;
    [reflexivity|].
  injection H as H. cbn [length seq map combine nth]. f_equal.
  rewrite <- seq_shift, map_map. cbn [nth]. apply IH. exact H.
Qed.

Lemma StronglySorted_map {A B : Type} (R : B -> B -> Prop) (f : A -> B)
  (l : list A) :
  StronglySorted (fun x y => R (f x) (f y)) l -> StronglySorted R (map f l).
Proof.
  induction 1 as [|x l _ IH Hx]; cbn [map]; constructor; [exact IH|].
  apply Forall_map. exact Hx.
Qed.

Lemma mapM_Forall2 {A B : Type} (f : A -> result B) (l : list A) :
  (forall x, In x l -> exists y, f x = Ok y) ->
  exists ys, mapM f l = Ok ys /\ Forall2 (fun x y => f x = Ok y) l ys.
Proof.
  induction l as [|x l IH]; intro H; cbn [mapM].
  - exists []. split; [reflexivity|constructor].
  - destruct (H x (or_introl eq_refl)) as (y & Hy).
    destruct IH as (ys & Hys & Hall); [intros; apply H; right; assumption|].
    exists (y :: ys). rewrite Hy, Hys. split; [reflexivity|].
    constructor; assumption.
Qed.


Lemma argsort_index_sort : index_sort Qle argsort.
Proof.
  intro v. split; [apply argsort_perm|].
  intros sorted H.
  assert (Hrange : Forall (fun i => (i < length v)%nat) (argsort v)).
  { apply Forall_forall. intros i Hi.
    apply (Permutation_in _ (argsort_perm v)), in_seq in Hi. lia. }
  rewrite (take_in_range 0%Q _ _ Hrange) in H. injection H as <-.
  apply StronglySorted_map. exact (argsort_sorted v).
Qed.

Lemma rank_words_with_any (np_argsort : list Q -> list nat)
  (words : ndarray2) :
  rank_words_with np_argsort words
  = rank_words_any calc_guess_entropy np_argsort words.
Proof. reflexivity. Qed.

Lemma combine_map_nth {A B : Type} (da : A) (db : B) (a : list A)
  (b : list B) (inds : list nat) :
  combine (map (fun i => nth i a da) inds) (map (fun i => nth i b db) inds)
  = map (fun i => (nth i a da, nth i b db)) inds.
Proof.
  induction inds as [|i inds IH]; cbn [map combine]; [reflexivity|].
  rewrite IH. reflexivity.
Qed.

(** C5, as the code has it: whatever the arithmetic of the scores, and
    whatever index sort [np.argsort] is, as long as it sorts,
    [rank_words] returns one entry for each word of the array, the word
    with its own score, in ascending order of the scores.  Nothing is
    said of the order of equal scores: the sort sees the scores only. *)
Theorem rank_words_any_sorted {score : Type} (le : score -> score -> Prop)
  (guess_score : list Z -> ndarray2 -> result score)
  (np_argsort : list score -> list nat) (words : ndarray2) :
  index_sort le np_argsort ->
  (forall guess, In guess (rows words) ->
     exists s, guess_score guess words = Ok s) ->
  exists sorted_words sorted_pred scores,
    rank_words_any guess_score np_argsort words
    = Ok (sorted_words, sorted_pred)
    /\ Forall2 (fun guess s => guess_score guess words = Ok s)
         (rows words) scores
    /\ Permutation (combine (rows sorted_words) sorted_pred)
         (combine (rows words) scores)
    /\ length (rows sorted_words) = length (rows words)
    /\ length sorted_pred = length (rows words)
    /\ StronglySorted le sorted_pred.
Proof.
  intros Hsort Hscore.
  destruct (mapM_Forall2 (fun guess => guess_score guess words) (rows words)
              Hscore) as (scores & Hscores & Hall).
  pose proof (Forall2_length Hall) as Hlen.
  destruct (Hsort scores) as [Hperm Hsorted].
  unfold rank_words_any. rewrite Hscores. cbn [bind].
  destruct scores as [|s0 rest] eqn:Es.
  - cbn [length seq] in Hperm. apply Permutation_sym, Permutation_nil in Hperm.
    rewrite Hperm. cbn [length] in Hlen.
    destruct (rows words) as [|r rs] eqn:Er; [|discriminate].
    unfold take_rows, take. rewrite Er. cbn [mapM bind].
    eexists. eexists. exists []. split; [reflexivity|].
    cbn [rows combine length]. repeat split; constructor.
  - rewrite <- Es in *. clear Es.
    assert (Hrange : Forall (fun i => (i < length scores)%nat)
                       (np_argsort scores)).
    { apply Forall_forall. intros i Hi.
      apply (Permutation_in _ Hperm), in_seq in Hi. lia. }
    assert (Hrange' : Forall (fun i => (i < length (rows words))%nat)
                        (np_argsort scores)) by (rewrite Hlen; exact Hrange).
    pose proof (take_in_range [] _ _ Hrange') as Hw.
    pose proof (take_in_range s0 _ _ Hrange) as Hs.
    unfold take_rows. rewrite Hw. cbn [bind]. rewrite Hs. cbn [bind].
    eexists. eexists. exists scores. split; [reflexivity|].
    cbn [rows]. split; [exact Hall|]. split; [|split; [|split]].
    + rewrite combine_map_nth.
      rewrite <- (combine_nth_seq [] s0 _ _ Hlen).
      rewrite Hlen. apply Permutation_map. exact Hperm.
    + rewrite length_map, (Permutation_length Hperm), length_seq.
      symmetry. exact Hlen.
    + rewrite length_map, (Permutation_length Hperm), length_seq.
      symmetry. exact Hlen.
    + apply Hsorted. exact Hs.
Qed.

Lemma rank_words_any_sorted_witness :
  exists sorted_words sorted_pred scores,
    rank_words (words_of ["trace"; "crane"; "speed"]%string)
    = Ok (sorted_words, sorted_pred)
    /\ Forall2 (fun guess s =>
                  calc_guess_entropy guess
                    (words_of ["trace"; "crane"; "speed"]%string) = Ok s)
         (rows (words_of ["trace"; "crane"; "speed"]%string)) scores
    /\ Permutation (combine (rows sorted_words) sorted_pred)
         (combine (rows (words_of ["trace"; "crane"; "speed"]%string)) scores)
    /\ length (rows sorted_words)
       = length (rows (words_of ["trace"; "crane"; "speed"]%string))
    /\ length sorted_pred
       = length (rows (words_of ["trace"; "crane"; "speed"]%string))
    /\ StronglySorted Qle sorted_pred.
Proof.
  apply (rank_words_any_sorted Qle calc_guess_entropy argsort
           (words_of ["trace"; "crane"; "speed"]%string)).
  - exact argsort_index_sort.
  - intros guess Hg.
    destruct (calc_guess_entropy_sum guess
                (words_of ["trace"; "crane"; "speed"]%string))
      as (q & Hq & _).
    + cbn in Hg. destruct Hg as [<-|[<-|[<-|[]]]]; reflexivity.
    + reflexivity.
    + cbn. discriminate.
    + exists q. exact Hq.
Defined.

(** C5 fails as stated: [trace] and [crane] have the same score, and the
    ranking of the array [trace; crane] lists [trace] first; the tie is
    not broken by the lexical order of the words. *)
Lemma rank_words_tie_not_lexical :
  exists sorted_words sorted_pred,
    rank_words (words_of ["trace"; "crane"]%string)
    = Ok (sorted_words, sorted_pred)
    /\ rows sorted_words = map get_unicode ["trace"; "crane"]%string
    /\ (nth 0 sorted_pred 0 == nth 1 sorted_pred 0)%Q
    /\ lex_leb (get_unicode "trace") (get_unicode "crane") = false
    /\ sorted_by entry_leb (ranking_entries (sorted_words, sorted_pred))
       = false.
Proof.
  eexists. eexists. split; [vm_compute; reflexivity|].
  repeat split.
Qed.

(** The failure does not depend on the index sort: the sort sees the
    scores only, so whatever permutation it returns for two equal scores,
    one of the two orders of the array comes out against the lexical
    order. *)
Lemma tie_not_lexical_for_any_index_sort (np_argsort : list Q -> list nat) :
  (forall v, Permutation (np_argsort v) (seq 0 (length v))) ->
  exists words sorted_words sorted_pred,
    ncols words = 5%nat /\ wf_array words
    /\ rank_words_with np_argsort words = Ok (sorted_words, sorted_pred)
    /\ sorted_by entry_leb (ranking_entries (sorted_words, sorted_pred))
       = false.
Proof.
  intro Hperm.
  set (q := (2 ^ 243 # 2 ^ 243)%Q).
  assert (E1 : mapM (fun guess =>
                       calc_guess_entropy guess
                         (words_of ["trace"; "crane"]%string))
                 (rows (words_of ["trace"; "crane"]%string)) = Ok [q; q])
    by (vm_compute; reflexivity).
  assert (E2 : mapM (fun guess =>
                       calc_guess_entropy guess
                         (words_of ["crane"; "trace"]%string))
                 (rows (words_of ["crane"; "trace"]%string)) = Ok [q; q])
    by (vm_compute; reflexivity).
  specialize (Hperm [q; q]). cbn [length seq] in Hperm.
  apply Permutation_sym, Permutation_length_2_inv in Hperm.
  destruct Hperm as [Hs|Hs].
  - exists (words_of ["trace"; "crane"]%string).
    eexists. eexists. split; [reflexivity|].
    split; [repeat constructor|].
    unfold rank_words_with. rewrite E1. cbn [bind]. rewrite Hs.
    split; [reflexivity|]. vm_compute. reflexivity.
  - exists (words_of ["crane"; "trace"]%string).
    eexists. eexists. split; [reflexivity|].
    split; [repeat constructor|].
    unfold rank_words_with. rewrite E2. cbn [bind]. rewrite Hs.
    split; [reflexivity|]. vm_compute. reflexivity.
Qed.

(** ** The filter and the caller's array *)

Lemma ext_refl (h : Store.heap) : Store.ext h h.
Proof. exists []. symmetry. apply app_nil_r. Qed.

Lemma ext_alloc_trans (h h' : Store.heap) (b : ndarray2) :
  Store.ext (h ++ [b]) h' -> Store.ext h h'.
Proof. intros [l ->]. exists ([b] ++ l). rewrite app_assoc. reflexivity. Qed.

Lemma deref_ext (h h' : Store.heap) (p : Store.ref) :
  Store.ext h h' -> (p < length h)%nat -> Store.deref h' p = Store.deref h p.
Proof. intros [l ->] Hp. unfold Store.deref. apply app_nth1. exact Hp. Qed.

Lemma deref_alloc_new (h : Store.heap) (b : ndarray2) :
  Store.deref (h ++ [b]) (length h) = b.
Proof. unfold Store.deref. apply nth_middle. Qed.

Lemma deref_alloc_old (h : Store.heap) (b : ndarray2) (p : Store.ref) :
  (p < length h)%nat -> Store.deref (h ++ [b]) p = Store.deref h p.
Proof. intro Hp. unfold Store.deref. apply app_nth1. exact Hp. Qed.

Lemma deref_assign_other (h : Store.heap) (q p : Store.ref) (v : ndarray2) :
  p <> q -> Store.deref (Store.assign h q v) p = Store.deref h p.
Proof.
  unfold Store.deref. revert q p.
  induction h as [|a h IH]; intros q p N; [reflexivity|].
  destruct q as [|q], p as [|p]; cbn [Store.assign nth];
    try reflexivity; [contradiction|].
  apply IH. congruence.
Qed.

Lemma sim_ret (n0 : nat) (h : Store.heap) (q : Store.ref) (a : ndarray2) :
  (n0 <= q < length h)%nat -> Store.deref h q = a ->
  Store.sim n0 (Store.ret q) (Ok a) h.
Proof.
  intros Hq <-. unfold Store.sim, Store.ret.
  split; [apply ext_refl|]. split; [exact Hq|reflexivity].
Qed.

Lemma sim_lift {A : Type} (n0 : nat) (h : Store.heap) (r : result A)
  (k : A -> Store.St Store.ref) (k' : A -> result ndarray2) :
  (forall x, r = Ok x -> Store.sim n0 (k x) (k' x) h) ->
  Store.sim n0 (Store.bindS (Store.lift r) k) (bind r k') h.
Proof.
  intro H. unfold Store.sim, Store.bindS, Store.lift.
  destruct r as [x|e]; cbn [bind].
  - exact (H x eq_refl).
  - split; [apply ext_refl|reflexivity].
Qed.

Lemma sim_read (n0 : nat) (h : Store.heap) (p : Store.ref)
  (k : ndarray2 -> Store.St Store.ref) (r : result ndarray2) :
  Store.sim n0 (k (Store.deref h p)) r h ->
  Store.sim n0 (Store.bindS (Store.read p) k) r h.
Proof. intro H. exact H. Qed.

Lemma sim_alloc (n0 : nat) (h : Store.heap) (r : result ndarray2)
  (k : Store.ref -> Store.St Store.ref) (k' : ndarray2 -> result ndarray2) :
  (forall b, r = Ok b -> Store.sim n0 (k (length h)) (k' b) (h ++ [b])) ->
  Store.sim n0 (Store.bindS (Store.lift r) (fun b => Store.bindS (Store.alloc b) k))
    (bind r k') h.
Proof.
  intro H. apply sim_lift. intros b Hb. specialize (H b Hb).
  unfold Store.sim, Store.bindS, Store.alloc in *.
  destruct (k (length h) (h ++ [b])) as [[q|e] h'].
  - destruct H as (Hext & Hq & Hr). split; [|split]; auto.
    apply (ext_alloc_trans _ _ b). exact Hext.
  - destruct H as (Hext & Hr). split; auto.
    apply (ext_alloc_trans _ _ b). exact Hext.
Qed.

Lemma sim_getitem_cols (n0 : nat) (h : Store.heap) (p : Store.ref)
  (a : ndarray2) (mask : list bool)
  (k : Store.ref -> Store.St Store.ref) (k' : ndarray2 -> result ndarray2) :
  Store.deref h p = a ->
  (forall b, getitem_cols mask a = Ok b ->
     Store.sim n0 (k (length h)) (k' b) (h ++ [b])) ->
  Store.sim n0 (Store.bindS (Store.getitem_cols_ref mask p) k)
    (bind (getitem_cols mask a) k') h.
Proof.
  intros <- H. pose proof (sim_alloc n0 h _ k k' H) as S.
  unfold Store.sim in *. unfold Store.getitem_cols_ref, Store.bindS,
    Store.read, Store.lift in *.
  destruct (getitem_cols mask (Store.deref h p)); exact S.
Qed.

Lemma sim_getitem_rows (n0 : nat) (h : Store.heap) (p : Store.ref)
  (a : ndarray2) (mask : list bool)
  (k : Store.ref -> Store.St Store.ref) (k' : ndarray2 -> result ndarray2) :
  Store.deref h p = a ->
  (forall b, getitem_rows mask a = Ok b ->
     Store.sim n0 (k (length h)) (k' b) (h ++ [b])) ->
  Store.sim n0 (Store.bindS (Store.getitem_rows_ref mask p) k)
    (bind (getitem_rows mask a) k') h.
Proof.
  intros <- H. pose proof (sim_alloc n0 h _ k k' H) as S.
  unfold Store.sim in *. unfold Store.getitem_rows_ref, Store.bindS,
    Store.read, Store.lift in *.
  destruct (getitem_rows mask (Store.deref h p)); exact S.
Qed.

Ltac store_len := rewrite ?length_app; cbn [length]; lia.

Ltac store_deref :=
  repeat first
    [ rewrite deref_alloc_new
    | rewrite deref_alloc_old by store_len ].

Ltac store_step lem :=
  store_deref; apply lem; [store_deref; reflexivity|];
  intros ? ?; cbv beta zeta.

Lemma get_poss_words_ref_sim (guess colors : list Z) (h : Store.heap)
  (words : Store.ref) :
  (words < length h)%nat ->
  Store.sim (length h) (Store.get_poss_words_ref guess colors words)
    (get_poss_words guess colors (Store.deref h words)) h.
Proof.
  intro Hp. unfold Store.get_poss_words_ref, get_poss_words. cbv zeta.
  store_step sim_getitem_cols.
  apply sim_lift; intros ? ?. apply sim_read.
  store_step sim_getitem_rows.
  store_step sim_getitem_cols.
  apply sim_lift; intros ? ?. apply sim_read.
  store_step sim_getitem_rows.
  apply sim_lift; intros ? ?.
  store_step sim_getitem_cols.
  apply sim_read.
  store_step sim_getitem_rows.
  apply sim_lift; intros ? ?.
  store_step sim_getitem_cols.
  apply sim_read.
  store_step sim_getitem_rows.
  apply sim_ret; [store_len|store_deref; reflexivity].
Qed.

(** C9: a call of the filter leaves every array of the caller as it was,
    the candidate array among them, whether it returns or raises; the
    array it returns is a new one, so that a later write into it leaves
    the caller's arrays as they were; its contents are those the filter
    computes on values. *)
Theorem get_poss_words_leaves_input (guess colors : list Z) (h : Store.heap)
  (words : Store.ref) :
  (words < length h)%nat ->
  exists r h',
    Store.get_poss_words_ref guess colors words h = (r, h')
    /\ (forall p, (p < length h)%nat -> Store.deref h' p = Store.deref h p)
    /\ match r with
       | Ok q =>
           (length h <= q < length h')%nat
           /\ get_poss_words guess colors (Store.deref h words)
              = Ok (Store.deref h' q)
           /\ (forall v p, (p < length h)%nat ->
                 Store.deref (Store.assign h' q v) p = Store.deref h p)
       | Raise e =>
           get_poss_words guess colors (Store.deref h words) = Raise e
       end.
Proof.
  intro Hp. pose proof (get_poss_words_ref_sim guess colors h words Hp) as S.
  unfold Store.sim in S.
  destruct (Store.get_poss_words_ref guess colors words h) as [r h'].
  exists r, h'. split; [reflexivity|].
  destruct r as [q|e].
  - destruct S as (Hext & Hq & Hr).
    split; [intros p Hlt; apply deref_ext; assumption|].
    split; [exact Hq|]. split; [exact Hr|].
    intros v p Hlt. rewrite deref_assign_other by lia.
    apply deref_ext; assumption.
  - destruct S as (Hext & Hr).
    split; [intros p Hlt; apply deref_ext; assumption|exact Hr].
Qed.

(** ** The theorems on examples *)

(** The guess [speed] with the colours [bbyby] against four candidates:
    only [abide] is kept, and it has the yellow letters [e] and [d] often
    enough. *)
Lemma present_lower_bound_witness :
  wf_array (words_of ["abide"; "erode"; "steal"; "creed"]%string)
  /\ get_poss_words (get_unicode "speed") (get_unicode "bbyby")
       (words_of ["abide"; "erode"; "steal"; "creed"]%string)
     = Ok (words_of ["abide"]%string)
  /\ (forall w, In w (rows (words_of ["abide"]%string)) ->
        forall letter,
          (1 <= present_count (get_unicode "speed") (get_unicode "bbyby")
                  letter)%nat ->
          (present_count (get_unicode "speed") (get_unicode "bbyby") letter
           <= non_exact_count (get_unicode "bbyby") w letter)%nat).
Proof.
  assert (Hwf : wf_array (words_of ["abide"; "erode"; "steal"; "creed"]%string))
    by (repeat constructor).
  assert (Hok : get_poss_words (get_unicode "speed") (get_unicode "bbyby")
                  (words_of ["abide"; "erode"; "steal"; "creed"]%string)
                = Ok (words_of ["abide"]%string))
    by (vm_compute; reflexivity).
  split; [exact Hwf|]. split; [exact Hok|].
  exact (proj1 (present_lower_bound _ _ _ _ Hwf Hok)).
Defined.

(** The same guess and colours: [erode] has the black letter [e] twice
    outside the green positions, once more than it is yellow, and is not
    kept. *)
Lemma absent_upper_bound_witness :
  wf_array (words_of ["abide"; "erode"; "steal"; "creed"]%string)
  /\ get_poss_words (get_unicode "speed") (get_unicode "bbyby")
       (words_of ["abide"; "erode"; "steal"; "creed"]%string)
     = Ok (words_of ["abide"]%string)
  /\ ~ In (get_unicode "erode") (rows (words_of ["abide"]%string)).
Proof.
  assert (Hwf : wf_array (words_of ["abide"; "erode"; "steal"; "creed"]%string))
    by (repeat constructor).
  assert (Hok : get_poss_words (get_unicode "speed") (get_unicode "bbyby")
                  (words_of ["abide"; "erode"; "steal"; "creed"]%string)
                = Ok (words_of ["abide"]%string))
    by (vm_compute; reflexivity).
  split; [exact Hwf|]. split; [exact Hok|].
  apply (proj2 (absent_upper_bound _ _ _ _ Hwf Hok)
           (get_unicode "erode") (ord "e")).
  - cbn. auto.
  - vm_compute. lia.
  - vm_compute. lia.
Defined.

Lemma get_poss_words_keeps_guess_witness :
  exists words',
    get_poss_words (get_unicode "crane") (get_unicode "ggggg")
      (words_of ["trace"; "crane"; "crazy"]%string) = Ok words'
    /\ In (get_unicode "crane") (rows words').
Proof.
  apply (get_poss_words_keeps_guess (get_unicode "crane")
           (words_of ["trace"; "crane"; "crazy"]%string)).
  - repeat constructor.
  - cbn. auto.
Defined.

Lemma calc_guess_entropy_total_iff_nonempty_witness :
  (exists q,
     calc_guess_entropy (get_unicode "crane")
       (words_of ["trace"; "crane"; "crazy"]%string) = Ok q /\ (0 <= q)%Q)
  /\ calc_guess_entropy (get_unicode "crane") (words_of [])
     = Raise ZeroDivisionError.
Proof.
  split.
  - apply (calc_guess_entropy_total_iff_nonempty (get_unicode "crane")
             (words_of ["trace"; "crane"; "crazy"]%string)).
    + reflexivity.
    + reflexivity.
    + cbn. discriminate.
  - apply (calc_guess_entropy_total_iff_nonempty (get_unicode "crane")
             (words_of [])); reflexivity.
Defined.

Lemma get_poss_words_leaves_input_witness :
  exists r h',
    Store.get_poss_words_ref (get_unicode "speed") (get_unicode "bbyby") O
      [words_of ["abide"; "erode"; "steal"; "creed"]%string] = (r, h')
    /\ (forall p, (p < 1)%nat ->
          Store.deref h' p
          = Store.deref
              [words_of ["abide"; "erode"; "steal"; "creed"]%string] p)
    /\ match r with
       | Ok q =>
           (1 <= q < length h')%nat
           /\ get_poss_words (get_unicode "speed") (get_unicode "bbyby")
                (words_of ["abide"; "erode"; "steal"; "creed"]%string)
              = Ok (Store.deref h' q)
           /\ (forall v p, (p < 1)%nat ->
                 Store.deref (Store.assign h' q v) p
                 = Store.deref
                     [words_of ["abide"; "erode"; "steal"; "creed"]%string] p)
       | Raise e =>
           get_poss_words (get_unicode "speed") (get_unicode "bbyby")
             (words_of ["abide"; "erode"; "steal"; "creed"]%string) = Raise e
       end.
Proof.
  apply (get_poss_words_leaves_input (get_unicode "speed")
           (get_unicode "bbyby")
           [words_of ["abide"; "erode"; "steal"; "creed"]%string] O).
  cbn. lia.
Defined.

(** * Further properties of the filter *)

(** The result of the filter is a part of the array it was given: the
    same width, no more rows, no row that was not there, no row twice if
    none was twice, and rows of the array's width if they all were. *)
Theorem get_poss_words_shrinks (guess colors : list Z)
  (words words' : ndarray2) :
  get_poss_words guess colors words = Ok words' ->
  ncols words' = ncols words
  /\ (shape0 words' <= shape0 words)%nat
  /\ incl (rows words') (rows words)
  /\ (NoDup (rows words) -> NoDup (rows words'))
  /\ (wf_array words -> wf_array words').
Proof.
  intro H. rewrite (get_poss_words_ok_rows _ _ _ _ H). unfold shape0.
  cbn [ncols rows]. repeat split.
  - apply filter_length_le.
  - apply incl_filter.
  - apply NoDup_filter.
  - unfold wf_array. cbn [ncols rows]. intro Hwf.
    apply Forall_forall. intros r Hr. apply filter_In in Hr.
    rewrite Forall_forall in Hwf. apply Hwf. tauto.
Qed.

Lemma get_poss_words_shrinks_witness :
  get_poss_words (get_unicode "crane") (get_unicode "bgggg")
    (words_of ["crane"; "trace"; "brane"; "drone"]%string)
  = Ok (words_of ["brane"]%string)
  /\ (shape0 (words_of ["brane"]%string)
      <= shape0 (words_of ["crane"; "trace"; "brane"; "drone"]%string))%nat
  /\ incl (rows (words_of ["brane"]%string))
       (rows (words_of ["crane"; "trace"; "brane"; "drone"]%string)).
Proof.
  assert (H : get_poss_words (get_unicode "crane") (get_unicode "bgggg")
                (words_of ["crane"; "trace"; "brane"; "drone"]%string)
              = Ok (words_of ["brane"]%string)) by (vm_compute; reflexivity).
  split; [exact H|].
  destruct (get_poss_words_shrinks _ _ _ _ H) as (_ & Hle & Hincl & _).
  split; assumption.
Defined.

Lemma filter_comm {A : Type} (p q : A -> bool) (l : list A) :
  filter p (filter q l) = filter q (filter p l).
Proof.
  rewrite !filter_filter_andb. apply filter_ext. intro x. apply andb_comm.
Qed.

(** Two observations can be applied in either order: the rows kept are
    the same, and if one of the two raises in one order, the filter raises
    in the other order too. *)
Theorem get_poss_words_commute (guess1 colors1 guess2 colors2 : list Z)
  (words : ndarray2) :
  (words1 <- get_poss_words guess1 colors1 words ;;
   get_poss_words guess2 colors2 words1)
  = (words2 <- get_poss_words guess2 colors2 words ;;
     get_poss_words guess1 colors1 words2).
Proof.
  destruct (shape_dec guess1 colors1 (ncols words)) as [S1|B1];
    destruct (shape_dec guess2 colors2 (ncols words)) as [S2|B2].
  - rewrite (get_poss_words_shape_ok guess1 colors1 words S1).
    rewrite (get_poss_words_shape_ok guess2 colors2 words S2).
    cbn [bind]. rewrite !get_poss_words_shape_ok by assumption.
    cbn [ncols rows]. rewrite filter_comm. reflexivity.
  - rewrite (get_poss_words_shape_ok guess1 colors1 words S1).
    rewrite (get_poss_words_bad_shape guess2 colors2 words B2).
    cbn [bind]. apply get_poss_words_bad_shape. exact B2.
  - rewrite (get_poss_words_shape_ok guess2 colors2 words S2).
    rewrite (get_poss_words_bad_shape guess1 colors1 words B1).
    cbn [bind]. symmetry. apply get_poss_words_bad_shape. exact B1.
  - rewrite (get_poss_words_bad_shape guess1 colors1 words B1).
    rewrite (get_poss_words_bad_shape guess2 colors2 words B2).
    reflexivity.
Qed.

(** Every row is judged on its own: the filter of an array made of two
    blocks of rows is the filter of the first block followed by the
    filter of the second. *)
Theorem get_poss_words_blocks (guess colors : list Z) (n : nat)
  (rows1 rows2 : list (list Z)) :
  get_poss_words guess colors {| ncols := n; rows := rows1 ++ rows2 |}
  = (kept1 <- get_poss_words guess colors {| ncols := n; rows := rows1 |} ;;
     kept2 <- get_poss_words guess colors {| ncols := n; rows := rows2 |} ;;
     Ok {| ncols := n; rows := rows kept1 ++ rows kept2 |}).
Proof.
  destruct (shape_dec guess colors n) as [S|B].
  - rewrite !get_poss_words_shape_ok by exact S. cbn [bind ncols rows].
    rewrite filter_app. reflexivity.
  - rewrite (get_poss_words_bad_shape guess colors
               {| ncols := n; rows := rows1 ++ rows2 |}) by exact B.
    rewrite (get_poss_words_bad_shape guess colors
               {| ncols := n; rows := rows1 |}) by exact B.
    reflexivity.
Qed.

(** ** The rows the filter keeps, rule by rule *)

Lemma forallb_zip_compress_intro (f : Z -> Z -> bool) (p : Z -> bool)
  (cs a b : list Z) :
  length cs = length a -> length cs = length b ->
  (forall i, (i < length cs)%nat -> p (nth i cs 0) = true ->
     f (nth i a 0) (nth i b 0) = true) ->
  forallb (fun t : bool => t)
    (zip_with f (compress (map p cs) a) (compress (map p cs) b)) = true.
Proof.
  revert a b. induction cs as [|c cs IH]; intros [|x a] [|y b] Ha Hb H;
    try discriminate; [reflexivity|].
  injection Ha as Ha. injection Hb as Hb. cbn [map compress].
  assert (Hrest : forallb (fun t : bool => t)
                    (zip_with f (compress (map p cs) a)
                       (compress (map p cs) b)) = true).
  { apply IH; auto. intros i Hi Hp. apply (H (S i)); [cbn; lia|exact Hp]. }
  destruct (p c) eqn:E; [|exact Hrest].
  cbn [zip_with forallb]. rewrite Hrest.
  assert (H0 : f x y = true) by (apply (H O); [cbn; lia|exact E]).
  rewrite H0. reflexivity.
Qed.

Lemma green_ok_iff (guess colors w : list Z) :
  length guess = length colors -> length w = length colors ->
  (green_ok guess colors w = true <-> rule_exact guess colors w).
Proof.
  intros Hg Hw. unfold green_ok, rule_exact, mask_eq. cbv zeta. split.
  - intros H i Hi Hc. apply Z.eqb_eq.
    apply (forallb_zip_compress Z.eqb (fun c => c =? G_UNICODE)
             colors w guess); auto.
    apply Z.eqb_eq. exact Hc.
  - intro H. apply forallb_zip_compress_intro; auto.
    intros i Hi Hc. apply Z.eqb_eq. apply H; [exact Hi|].
    apply Z.eqb_eq. exact Hc.
Qed.

Lemma not_at_index_ok_iff (guess colors w : list Z) :
  length guess = length colors -> length w = length colors ->
  (not_at_index_ok guess colors w = true <-> rule_not_at_index guess colors w).
Proof.
  intros Hg Hw. unfold not_at_index_ok, rule_not_at_index, mask_eq, invert.
  cbv zeta. rewrite !map_map. split.
  - intros H i Hi Hc E.
    assert (Hn : negb (nth i w 0 =? nth i guess 0) = true).
    { apply (forallb_zip_compress (fun x y => negb (x =? y))
               (fun c => negb (c =? G_UNICODE)) colors w guess); auto.
      apply negb_true_iff. apply Z.eqb_neq. exact Hc. }
    apply negb_true_iff, Z.eqb_neq in Hn. contradiction.
  - intro H.
    apply (forallb_zip_compress_intro (fun x y => negb (x =? y))
             (fun c => negb (c =? G_UNICODE))); auto.
    intros i Hi Hc. apply negb_true_iff, Z.eqb_neq.
    apply H; [exact Hi|]. apply negb_true_iff, Z.eqb_neq in Hc. exact Hc.
Qed.

Lemma yellow_ok_rule (guess colors w : list Z) :
  length guess = length colors -> length w = length colors ->
  (yellow_ok guess colors w = true <-> rule_present guess colors w).
Proof.
  intros Hg Hw. rewrite yellow_ok_iff. unfold rule_present. split.
  - intros H letter Hk.
    rewrite <- (present_count_compress _ _ _ Hg) in *.
    rewrite <- (non_exact_count_compress _ _ _ Hw).
    apply H. apply count_eq_pos_in. exact Hk.
  - intros H u Hu.
    rewrite (present_count_compress _ _ _ Hg).
    rewrite (non_exact_count_compress _ _ _ Hw).
    apply H. rewrite <- (present_count_compress _ _ _ Hg).
    apply count_eq_pos_in. exact Hu.
Qed.

Lemma black_ok_rule (guess colors w : list Z) :
  length guess = length colors -> length w = length colors ->
  (black_ok guess colors w = true <-> rule_absent guess colors w).
Proof.
  intros Hg Hw. rewrite black_ok_iff. unfold rule_absent. split.
  - intros H letter Hk.
    rewrite <- (present_count_compress _ _ _ Hg).
    rewrite <- (non_exact_count_compress _ _ _ Hw).
    apply H. apply count_eq_pos_in.
    rewrite (absent_count_compress _ _ _ Hg). exact Hk.
  - intros H u Hu.
    rewrite (present_count_compress _ _ _ Hg).
    rewrite (non_exact_count_compress _ _ _ Hw).
    apply H. rewrite <- (absent_count_compress _ _ _ Hg).
    apply count_eq_pos_in. exact Hu.
Qed.

Lemma consistent_iff_rules (guess colors w : list Z) :
  length guess = length colors -> length w = length colors ->
  (consistent guess colors w = true <->
   rule_exact guess colors w /\ rule_not_at_index guess colors w
   /\ rule_present guess colors w /\ rule_absent guess colors w).
Proof.
  intros Hg Hw. unfold consistent. rewrite !andb_true_iff.
  rewrite (green_ok_iff _ _ _ Hg Hw), (not_at_index_ok_iff _ _ _ Hg Hw),
    (yellow_ok_rule _ _ _ Hg Hw), (black_ok_rule _ _ _ Hg Hw).
  tauto.
Qed.

(** The rows the filter keeps are exactly the rows of the array that obey
    the four rules: the letter of the guess at the green positions, never
    at another position, the yellow letters often enough and the black
    letters not too often outside the green positions. *)
Theorem get_poss_words_keeps_exactly (guess colors : list Z)
  (words words' : ndarray2) :
  wf_array words ->
  get_poss_words guess colors words = Ok words' ->
  forall w,
    In w (rows words') <->
    In w (rows words)
    /\ rule_exact guess colors w /\ rule_not_at_index guess colors w
    /\ rule_present guess colors w /\ rule_absent guess colors w.
Proof.
  intros Hwf Hok w.
  pose proof (get_poss_words_ok_shape _ _ _ _ Hok) as Hshape.
  rewrite (get_poss_words_ok_rows _ _ _ _ Hok). cbn [rows].
  rewrite filter_In. destruct Hshape as [H0|[Hc Hg]].
  - rewrite (consistent_no_colors _ _ _ H0). split; [|tauto].
    intros [Hin _]. split; [exact Hin|].
    unfold rule_exact, rule_not_at_index, rule_present, rule_absent.
    repeat split.
    + intros i Hi. lia.
    + intros i Hi. lia.
    + intros letter Hk. rewrite (present_count_no_colors _ _ _ H0) in Hk. lia.
    + intros letter Hk. rewrite (absent_count_no_colors _ _ _ H0) in Hk. lia.
  - split.
    + intros [Hin Hcons]. split; [exact Hin|].
      apply consistent_iff_rules; auto.
      rewrite (wf_array_in _ _ Hwf Hin). symmetry. exact Hc.
    + intros [Hin Hrules]. split; [exact Hin|].
      apply consistent_iff_rules; auto.
      rewrite (wf_array_in _ _ Hwf Hin). symmetry. exact Hc.
Qed.

Lemma get_poss_words_keeps_exactly_witness :
  In (get_unicode "abide") (rows (words_of ["abide"]%string))
  /\ rule_exact (get_unicode "speed") (get_unicode "bbyby")
       (get_unicode "abide")
  /\ rule_not_at_index (get_unicode "speed") (get_unicode "bbyby")
       (get_unicode "abide")
  /\ ~ In (get_unicode "dairy") (rows (words_of ["abide"]%string)).
Proof.
  assert (Hwf : wf_array (words_of ["abide"; "erode"; "dairy"]%string))
    by (repeat constructor).
  assert (Hok : get_poss_words (get_unicode "speed") (get_unicode "bbyby")
                  (words_of ["abide"; "erode"; "dairy"]%string)
                = Ok (words_of ["abide"]%string))
    by (vm_compute; reflexivity).
  pose proof (get_poss_words_keeps_exactly _ _ _ _ Hwf Hok) as K.
  assert (Hin : In (get_unicode "abide") (rows (words_of ["abide"]%string)))
    by (cbn; auto).
  destruct (proj1 (K (get_unicode "abide")) Hin) as (_ & R1 & R2 & _).
  repeat split; try assumption.
  intro Hd. apply (K (get_unicode "dairy")) in Hd.
  destruct Hd as (_ & _ & _ & R3 & _).
  specialize (R3 (ord "e")). vm_compute in R3.
  specialize (R3 (le_n 1)). lia.
Defined.

(** ** Patterns of one kind *)

Lemma forallb_zip_eqb_eq (a b : list Z) :
  length a = length b ->
  (forallb (fun t : bool => t) (zip_with Z.eqb a b) = true <-> a = b).
Proof.
  revert b. induction a as [|x a IH]; intros [|y b] H; try discriminate.
  - cbn. tauto.
  - injection H as H. cbn [zip_with forallb]. rewrite andb_true_iff, (IH b H).
    rewrite Z.eqb_eq. split; [intros [-> ->]; reflexivity|].
    intro E. injection E as -> ->. auto.
Qed.

Lemma forallb_zip_neqb_nth (a b : list Z) :
  length a = length b ->
  (forallb (fun t : bool => t) (zip_with (fun x y => negb (x =? y)) a b)
   = true
   <-> forall i, (i < length a)%nat -> nth i a 0 <> nth i b 0).
Proof.
  revert b. induction a as [|x a IH]; intros [|y b] H; try discriminate.
  - cbn. split; [intros _ i Hi; lia|reflexivity].
  - injection H as H. cbn [zip_with forallb length].
    rewrite andb_true_iff, (IH b H), negb_true_iff, Z.eqb_neq. split.
    + intros [Hx Hrest] [|i] Hi; cbn [nth]; [exact Hx|].
      apply Hrest. lia.
    + intro Hall. split.
      * apply (Hall O). lia.
      * intros i Hi. apply (Hall (S i)). lia.
Qed.

Lemma consistent_all_green_iff (g w : list Z) :
  length w = length g ->
  (consistent g (repeat G_UNICODE (length g)) w = true <-> w = g).
Proof.
  intro Hw.
  unfold consistent, green_ok, not_at_index_ok, yellow_ok, black_ok.
  cbv zeta. rewrite mask_eq_repeat_same.
  rewrite !mask_eq_repeat_other by discriminate.
  rewrite invert_repeat. cbn [negb].
  rewrite !compress_none, compress_all.
  rewrite <- Hw at 1. rewrite compress_all.
  cbn [np_unique fold_right counts_of map zip_with forallb].
  rewrite !andb_true_r. apply forallb_zip_eqb_eq. exact Hw.
Qed.

(** With the all-green pattern the filter keeps the rows equal to the
    guess and no other row. *)
Theorem get_poss_words_all_green (g : list Z) (words : ndarray2) :
  wf_array words ->
  length g = ncols words ->
  exists words',
    get_poss_words g (repeat G_UNICODE (ncols words)) words = Ok words'
    /\ forall w, In w (rows words') <-> In w (rows words) /\ w = g.
Proof.
  intros Hwf Hg. eexists. split.
  - apply get_poss_words_rows; rewrite repeat_length; [reflexivity|exact Hg].
  - intro w. cbn [rows]. rewrite filter_In. rewrite <- Hg.
    split; intros [Hin H]; (split; [exact Hin|]);
      apply consistent_all_green_iff; auto;
      rewrite (wf_array_in _ _ Hwf Hin); symmetry; exact Hg.
Qed.

Lemma get_poss_words_all_green_witness :
  exists words',
    get_poss_words (get_unicode "crane") (get_unicode "ggggg")
      (words_of ["trace"; "crane"; "crazy"]%string) = Ok words'
    /\ forall w,
         In w (rows words') <->
         In w (rows (words_of ["trace"; "crane"; "crazy"]%string))
         /\ w = get_unicode "crane".
Proof.
  apply (get_poss_words_all_green (get_unicode "crane")
           (words_of ["trace"; "crane"; "crazy"]%string)).
  - repeat constructor.
  - reflexivity.
Defined.

Lemma mask_eq_none (colors : list Z) (v : Z) :
  Forall (fun s => s <> v) colors ->
  mask_eq colors v = repeat false (length colors).
Proof.
  unfold mask_eq. induction 1 as [|s colors Hs _ IH]; cbn [map length repeat];
    [reflexivity|].
  rewrite IH. destruct (Z.eqb_spec s v); [contradiction|reflexivity].
Qed.

Lemma consistent_no_color_iff (g colors w : list Z) :
  Forall (fun s => s <> G_UNICODE) colors ->
  Forall (fun s => s <> Y_UNICODE) colors ->
  Forall (fun s => s <> B_UNICODE) colors ->
  length g = length colors -> length w = length colors ->
  (consistent g colors w = true
   <-> forall i, (i < length colors)%nat -> nth i w 0 <> nth i g 0).
Proof.
  intros HG HY HB Hg Hw.
  unfold consistent, green_ok, not_at_index_ok, yellow_ok, black_ok.
  cbv zeta. rewrite (mask_eq_none _ _ HG), (mask_eq_none _ _ HY),
    (mask_eq_none _ _ HB).
  rewrite invert_repeat. cbn [negb]. rewrite !compress_none.
  rewrite <- Hw at 1. rewrite compress_all.
  rewrite <- Hg at 1. rewrite compress_all.
  cbn [np_unique fold_right counts_of map zip_with forallb].
  rewrite !andb_true_r. cbn [andb]. rewrite <- Hw.
  apply forallb_zip_neqb_nth. congruence.
Qed.

(** A symbol that is none of [g], [y] and [b] is read as "not this letter
    here" and nothing more: with a pattern of such symbols only (capital
    letters, say) the filter raises nothing and keeps the rows that differ
    from the guess at every position. *)
Theorem get_poss_words_unknown_symbols (g colors : list Z) (words : ndarray2) :
  wf_array words ->
  length colors = ncols words ->
  length g = length colors ->
  Forall (fun s => s <> G_UNICODE /\ s <> Y_UNICODE /\ s <> B_UNICODE)
    colors ->
  exists words',
    get_poss_words g colors words = Ok words'
    /\ forall w,
         In w (rows words') <->
         In w (rows words)
         /\ forall i, (i < ncols words)%nat -> nth i w 0 <> nth i g 0.
Proof.
  intros Hwf Hc Hg Hs. eexists. split.
  - apply get_poss_words_rows; assumption.
  - intro w. cbn [rows]. rewrite filter_In. rewrite <- Hc.
    assert (HG : Forall (fun s => s <> G_UNICODE) colors)
      by (revert Hs; apply Forall_impl; tauto).
    assert (HY : Forall (fun s => s <> Y_UNICODE) colors)
      by (revert Hs; apply Forall_impl; tauto).
    assert (HB : Forall (fun s => s <> B_UNICODE) colors)
      by (revert Hs; apply Forall_impl; tauto).
    split; intros [Hin H]; (split; [exact Hin|]);
      apply (consistent_no_color_iff g colors w); auto;
      rewrite (wf_array_in _ _ Hwf Hin); symmetry; exact Hc.
Qed.

Lemma get_poss_words_unknown_symbols_witness :
  exists words',
    get_poss_words (get_unicode "crane") (get_unicode "GGGGG")
      (words_of ["crane"; "trace"; "shiny"]%string) = Ok words'
    /\ forall w,
         In w (rows words') <->
         In w (rows (words_of ["crane"; "trace"; "shiny"]%string))
         /\ forall i, (i < 5)%nat -> nth i w 0 <> nth i (get_unicode "crane") 0.
Proof.
  apply (get_poss_words_unknown_symbols (get_unicode "crane")
           (get_unicode "GGGGG")
           (words_of ["crane"; "trace"; "shiny"]%string)).
  - repeat constructor.
  - reflexivity.
  - reflexivity.
  - repeat constructor; discriminate.
Defined.

(** * Further properties of the ranker *)

(** ** What the ranker raises *)

Lemma POSSIBLE_COLORS_first :
  exists f rest, POSSIBLE_COLORS = f :: rest /\ length f = 5%nat.
Proof.
  pose proof POSSIBLE_COLORS_width as W.
  destruct POSSIBLE_COLORS as [|f rest] eqn:E; [discriminate E|].
  inversion W; subst. exists f, rest. auto.
Qed.

(** A guess that has not five letters, or an array whose words have not
    five letters, makes [calc_guess_entropy] raise [IndexError] at the
    first pattern, whatever the rows; for an empty array this comes before
    the division by zero. *)
Theorem calc_guess_entropy_index_error (guess : list Z) (words : ndarray2) :
  length guess <> 5%nat \/ ncols words <> 5%nat ->
  calc_guess_entropy guess words = Raise IndexError.
Proof.
  intro H. unfold calc_guess_entropy.
  destruct POSSIBLE_COLORS_first as (f & rest & -> & Hf).
  cbn [entropy_loop]. rewrite get_poss_words_bad_shape; [reflexivity|].
  intros [H0|[Hc Hg]]; [rewrite Hf in H0; discriminate|].
  destruct H as [H|H]; apply H; congruence.
Qed.

Lemma calc_guess_entropy_index_error_witness :
  calc_guess_entropy (get_unicode "cran") (words_of []) = Raise IndexError.
Proof.
  apply calc_guess_entropy_index_error. left. cbn. discriminate.
Defined.

Lemma get_poss_words_raises_index_error (guess colors : list Z)
  (words : ndarray2) (e : exn) :
  get_poss_words guess colors words = Raise e -> e = IndexError.
Proof.
  intro H. destruct (shape_dec guess colors (ncols words)) as [S|B].
  - rewrite get_poss_words_shape_ok in H by exact S. discriminate.
  - rewrite get_poss_words_bad_shape in H by exact B. congruence.
Qed.

Lemma entropy_loop_raises_index_error (patterns : list (list Z))
  (guess : list Z) (words : ndarray2) (acc : Q) (e : exn) :
  rows words <> [] ->
  entropy_loop patterns guess words acc = Raise e -> e = IndexError.
Proof.
  intro Hne. revert acc.
  induction patterns as [|f patterns IH]; intros acc H; cbn [entropy_loop] in H;
    [discriminate|].
  destruct (get_poss_words guess f words) as [poss|e'] eqn:E; cbn [bind] in H.
  - destruct (truediv_pos (shape0 poss) (shape0 words)) as (frac & Hf & _).
    { unfold shape0. destruct (rows words); [contradiction|discriminate]. }
    rewrite Hf in H. cbn [bind] in H. exact (IH _ H).
  - apply get_poss_words_raises_index_error in E. congruence.
Qed.

Lemma mapM_raises {A B : Type} (f : A -> result B) (l : list A) (e : exn) :
  mapM f l = Raise e -> exists x, In x l /\ f x = Raise e.
Proof.
  induction l as [|x l IH]; cbn [mapM]; intro H; [discriminate|].
  destruct (f x) as [y|e'] eqn:E; cbn [bind] in H.
  - destruct (mapM f l) as [ys|e''] eqn:E'; cbn [bind] in H; [discriminate|].
    destruct (IH H) as (x' & Hin & Hx'). exists x'. split; [right|]; auto.
  - exists x. split; [left; reflexivity|congruence].
Qed.

Lemma take_raises_index_error {A : Type} (inds : list nat) (a : list A)
  (e : exn) :
  take inds a = Raise e -> e = IndexError.
Proof.
  unfold take. intro H. apply mapM_raises in H.
  destruct H as (i & _ & Hi). destruct (nth_error a i); congruence.
Qed.

Lemma rank_words_no_rows (n : nat) :
  rank_words {| ncols := n; rows := [] |}
  = Ok ({| ncols := n; rows := [] |}, []).
Proof. reflexivity. Qed.

(** [rank_words] never raises [ZeroDivisionError]: the only exception it
    raises is [IndexError], and it raises it whenever the array has a row
    and its words have not five letters.  The ranking of an array without
    rows is the empty ranking, whatever the width: no score is computed
    and nothing is divided by zero. *)
Theorem rank_words_raises_index_error_only (words : ndarray2) :
  (forall e, rank_words words = Raise e -> e = IndexError)
  /\ (rows words <> [] -> ncols words <> 5%nat ->
      rank_words words = Raise IndexError)
  /\ (rows words = [] ->
      rank_words words = Ok ({| ncols := ncols words; rows := [] |}, [])).
Proof.
  split; [|split].
  - intros e H. unfold rank_words, rank_words_with in H.
    destruct (mapM (fun guess => calc_guess_entropy guess words) (rows words))
      as [scores|e'] eqn:E; cbn [bind] in H.
    + unfold take_rows in H.
      destruct (take (argsort scores) (rows words)) as [rs|e'] eqn:E1;
        cbn [bind] in H.
      * destruct (take (argsort scores) scores) as [ss|e'] eqn:E2;
          cbn [bind] in H; [discriminate|].
        apply take_raises_index_error in E2. congruence.
      * apply take_raises_index_error in E1. congruence.
    + injection H as <-. apply mapM_raises in E.
      destruct E as (g & Hg & Hraise).
      apply (entropy_loop_raises_index_error _ _ _ _ _) in Hraise;
        [exact Hraise|].
      intro Hempty. rewrite Hempty in Hg. contradiction.
  - intros Hne Hn. unfold rank_words, rank_words_with.
    destruct (rows words) as [|g rest] eqn:E; [contradiction|].
    cbn [mapM]. rewrite calc_guess_entropy_index_error by (right; exact Hn).
    reflexivity.
  - intro Hempty. destruct words as [n rs]. cbn in Hempty. subst rs.
    apply rank_words_no_rows.
Qed.

Lemma rank_words_raises_index_error_only_witness :
  rank_words {| ncols := 4; rows := [get_unicode "cran"; get_unicode "trac"] |}
  = Raise IndexError.
Proof.
  apply (proj1 (proj2 (rank_words_raises_index_error_only
           {| ncols := 4;
              rows := [get_unicode "cran"; get_unicode "trac"] |}))).
  - cbn. discriminate.
  - cbn. discriminate.
Defined.

(** * The strings, the printing and the turns of the game *)

(** ** Words and their arrays *)

Lemma ord_range (c : ascii) : 0 <= ord c < 256.
Proof.
  unfold ord. pose proof (N_ascii_bounded c) as H. lia.
Qed.

Lemma chr_ord (c : ascii) : chr (ord c) = Some c.
Proof.
  unfold chr. pose proof (ord_range c) as [H0 H1].
  destruct (Z.leb_spec 0 (ord c)); [|lia].
  destruct (Z.ltb_spec (ord c) 256); [|lia].
  cbn [andb]. unfold ord. rewrite N2Z.id, ascii_N_embedding. reflexivity.
Qed.

Lemma ord_chr (v : Z) (c : ascii) : chr v = Some c -> ord c = v.
Proof.
  unfold chr. destruct (Z.leb_spec 0 v) as [H0|H0]; [|discriminate].
  destruct (Z.ltb_spec v 256) as [H1|H1]; [|discriminate].
  cbn [andb]. intro E. injection E as <-. unfold ord.
  rewrite N_ascii_embedding by lia. apply Z2N.id. assumption.
Qed.

Lemma get_str_get_unicode (word : string) :
  get_str (get_unicode word) = Some word.
Proof.
  induction word as [|c word IH]; cbn [get_unicode get_str]; [reflexivity|].
  rewrite chr_ord, IH. reflexivity.
Qed.

Lemma get_unicode_get_str (a : list Z) (word : string) :
  get_str a = Some word -> get_unicode word = a.
Proof.
  revert word. induction a as [|v a IH]; cbn [get_str]; intros word H.
  - injection H as <-. reflexivity.
  - destruct (chr v) as [c|] eqn:E; [|discriminate].
    destruct (get_str a) as [w|]; [|discriminate].
    injection H as <-. cbn [get_unicode].
    rewrite (ord_chr _ _ E), (IH w eq_refl). reflexivity.
Qed.

Lemma length_get_unicode (word : string) :
  length (get_unicode word) = String.length word.
Proof.
  induction word as [|c word IH]; cbn [get_unicode length String.length];
    congruence.
Qed.

(** [get_str] undoes [get_unicode], and [get_unicode] undoes [get_str]
    where it gives a word: a word and its array determine each other, the
    array has one code point for each character, and each code point is a
    character code. *)
Theorem get_str_round_trip :
  (forall word, get_str (get_unicode word) = Some word)
  /\ (forall a word, get_str a = Some word -> get_unicode word = a)
  /\ (forall word, length (get_unicode word) = String.length word)
  /\ (forall word, Forall (fun v => 0 <= v < 256) (get_unicode word)).
Proof.
  split; [exact get_str_get_unicode|].
  split; [exact get_unicode_get_str|].
  split; [exact length_get_unicode|].
  intro word. induction word as [|c word IH]; cbn [get_unicode];
    constructor; [apply ord_range|exact IH].
Qed.

(** ** The lines of [show_words] *)

Lemma show_lines_ok (inds : list nat) (words : ndarray2) (pred : list Q)
  (lines : list line) :
  show_lines inds words pred = (lines, None) ->
  Forall2 (fun i l =>
             exists word score,
               l = (i, word, score)
               /\ get_str (nth i (rows words) []) = Some word
               /\ nth_error pred i = Some score)
    inds lines.
Proof.
  revert lines. induction inds as [|i inds IH]; cbn [show_lines]; intros lines H.
  - injection H as <-. constructor.
  - destruct (get_str (nth i (rows words) [])) as [word|] eqn:Ew;
      [|discriminate].
    destruct (nth_error pred i) as [score|] eqn:Es; [|discriminate].
    destruct (show_lines inds words pred) as [ls err] eqn:E.
    injection H as <- ->. constructor; [|apply IH; reflexivity].
    exists word, score. auto.
Qed.

Lemma Forall2_nth_error {A B : Type} (R : A -> B -> Prop) (a : list A)
  (b : list B) :
  Forall2 R a b ->
  forall i x y, nth_error a i = Some x -> nth_error b i = Some y -> R x y.
Proof.
  induction 1 as [|x' y' a b Hxy _ IH]; intros [|i] x y Hx Hy;
    try discriminate.
  - cbn in Hx, Hy. congruence.
  - cbn in Hx, Hy. exact (IH i x y Hx Hy).
Qed.

(** When [show_words] gets to the end it has printed one line for each of
    the first [n_words] rows, or for every row if there are fewer, in the
    order of the array: line [i] shows [i], the word of row [i] and the
    score at index [i]. *)
Theorem show_words_lines (words : ndarray2) (pred : list Q) (n_words : nat)
  (lines : list line) :
  show_words words pred n_words = (lines, None) ->
  length lines = Nat.min (shape0 words) n_words
  /\ forall i, (i < length lines)%nat ->
       exists word score,
         nth_error lines i = Some (i, word, score)
         /\ get_unicode word = nth i (rows words) []
         /\ nth_error pred i = Some score.
Proof.
  unfold show_words. intro H. apply show_lines_ok in H.
  pose proof (Forall2_length H) as Hlen. rewrite length_seq in Hlen.
  split; [symmetry; exact Hlen|].
  intros i Hi. unfold line in *.
  destruct (nth_error lines i) as [l|] eqn:El;
    [|apply nth_error_None in El; lia].
  assert (Hs : nth_error (seq 0 (Nat.min (shape0 words) n_words)) i = Some i).
  { rewrite nth_error_nth' with (d := O); rewrite ?length_seq; [|lia].
    rewrite seq_nth by lia. reflexivity. }
  pose proof (Forall2_nth_error _ _ _ H i i l Hs El) as Hrel. cbv beta in Hrel.
  destruct Hrel as (word & score & -> & Hw & Hp).
  exists word, score. repeat split; auto.
  apply get_unicode_get_str. exact Hw.
Qed.

Lemma show_words_lines_witness :
  show_words (words_of ["crane"; "trace"; "crazy"]%string)
    [1 # 1; 2 # 1; 3 # 1]%Q 2
  = ([(0%nat, "crane"%string, 1 # 1); (1%nat, "trace"%string, 2 # 1)]%Q, None)
  /\ length [(0%nat, "crane"%string, 1 # 1); (1%nat, "trace"%string, 2 # 1)]%Q
     = Nat.min (shape0 (words_of ["crane"; "trace"; "crazy"]%string)) 2.
Proof.
  assert (H : show_words (words_of ["crane"; "trace"; "crazy"]%string)
                [1 # 1; 2 # 1; 3 # 1]%Q 2
              = ([(0%nat, "crane"%string, 1 # 1);
                  (1%nat, "trace"%string, 2 # 1)]%Q, None))
    by (vm_compute; reflexivity).
  split; [exact H|].
  exact (proj1 (show_words_lines _ _ _ _ H)).
Defined.

(** ** The turns of the game *)

Lemma shape_one_row (a : ndarray2) :
  (shape0 a =? 1)%nat = true -> rows a = [nth 0 (rows a) []].
Proof.
  unfold shape0. intro H. apply Nat.eqb_eq in H.
  destruct (rows a) as [|r [|r' t]]; try discriminate. reflexivity.
Qed.

Lemma in_ranked_only (lines : list line) (e : event) :
  In e [RankedWords lines] -> e = RankedWords lines.
Proof. intros [H|[]]. symmetry. exact H. Qed.

(** The word the loop names is the one row left: it is a row of the
    array the loop started from, it fits what was typed at every turn
    played, and no other row does. *)
Lemma game_loop_names_only_candidate (n : nat) :
  forall turn words first typed evs err s,
    game_loop n turn words first typed = (evs, err) ->
    In (IsTheWord s) evs ->
    exists k,
      (turn < k <= turn + n)%nat
      /\ In (get_unicode s) (rows words)
      /\ (forall t, (turn <= t < k)%nat -> fits typed t (get_unicode s))
      /\ (forall w, In w (rows words) ->
            (forall t, (turn <= t < k)%nat -> fits typed t w) ->
            w = get_unicode s).
Proof.
  induction n as [|n IH]; intros turn words first typed evs err s H Hin;
    cbn [game_loop] in H.
  - injection H as <- <-. contradiction.
  - destruct (if (turn =? 0)%nat then Ok first else rank_words words)
      as [[sw sp]|e]; [|injection H as <- <-; contradiction].
    destruct (show_words sw sp 10) as [lines [e|]].
    { injection H as <- <-. apply in_ranked_only in Hin. discriminate. }
    unfold get_guess_colors in H.
    destruct (get_poss_words (get_unicode (fst (typed turn)))
                (get_unicode (snd (typed turn))) words) as [words'|e] eqn:E.
    2:{ injection H as <- <-. apply in_ranked_only in Hin. discriminate. }
    pose proof (get_poss_words_ok_rows _ _ _ _ E) as Hrows.
    assert (Hkept : forall w, In w (rows words') <->
                      In w (rows words) /\ fits typed turn w).
    { intro w. rewrite Hrows. cbn [rows]. apply filter_In. }
    destruct (shape0 words' =? 1)%nat eqn:E1.
    + destruct (get_str (nth 0 (rows words') [])) as [word|] eqn:Es.
      2:{ injection H as <- <-. apply in_ranked_only in Hin. discriminate. }
      injection H as <- <-.
      destruct Hin as [Hin|[Hin|[]]]; [discriminate|]. injection Hin as ->.
      apply get_unicode_get_str in Es.
      pose proof (shape_one_row _ E1) as Hone. rewrite <- Es in Hone.
      assert (Hs : In (get_unicode s) (rows words'))
        by (rewrite Hone; left; reflexivity).
      apply Hkept in Hs. destruct Hs as [Hs Hfit].
      exists (S turn). split; [lia|]. split; [exact Hs|]. split.
      * intros t Ht. assert (t = turn) by lia. subst t. exact Hfit.
      * intros w Hw Hall.
        assert (Hw' : In w (rows words')).
        { apply Hkept. split; [exact Hw|]. apply Hall. lia. }
        rewrite Hone in Hw'. destruct Hw' as [<-|[]]. reflexivity.
    + destruct (shape0 words' =? 0)%nat.
      { injection H as <- <-.
        destruct Hin as [Hin|[Hin|[]]]; discriminate. }
      destruct (game_loop n (S turn) words' first typed) as [rest err'] eqn:Eg.
      assert (Hrest : In (IsTheWord s) rest).
      { destruct (turn =? 5)%nat; injection H as <- <-.
        - destruct Hin as [Hin|[Hin|Hin]]; [discriminate|discriminate|exact Hin].
        - destruct Hin as [Hin|Hin]; [discriminate|exact Hin]. }
      destruct (IH _ _ _ _ _ _ _ Eg Hrest) as (k & Hk & Hs & Hfits & Huniq).
      apply Hkept in Hs. destruct Hs as [Hs Hfit].
      exists k. split; [lia|]. split; [exact Hs|]. split.
      * intros t Ht. destruct (Nat.eq_dec t turn) as [->|N]; [exact Hfit|].
        apply Hfits. lia.
      * intros w Hw Hall. apply Huniq.
        -- apply Hkept. split; [exact Hw|]. apply Hall. lia.
        -- intros t Ht. apply Hall. lia.
Qed.

(** When the program says that a word is the word, that word is in the
    dictionary, it fits everything the user typed in the turns played, at
    most six, and it is the only row of the dictionary that does. *)
Theorem main_names_only_candidate (words : ndarray2)
  (first_word_stats : ndarray2 * list Q) (typed : nat -> string * string)
  (evs : list event) (err : option raised) (word : string) :
  main words first_word_stats typed = (evs, err) ->
  In (IsTheWord word) evs ->
  exists turns,
    (1 <= turns <= 6)%nat
    /\ In (get_unicode word) (rows words)
    /\ (forall t, (t < turns)%nat -> fits typed t (get_unicode word))
    /\ (forall w, In w (rows words) ->
          (forall t, (t < turns)%nat -> fits typed t w) ->
          w = get_unicode word).
Proof.
  intros H Hin. unfold main in H.
  destruct (game_loop_names_only_candidate _ _ _ _ _ _ _ _ H Hin)
    as (k & Hk & Hs & Hfits & Huniq).
  exists k. split; [lia|]. split; [exact Hs|]. split.
  - intros t Ht. apply Hfits. lia.
  - intros w Hw Hall. apply Huniq; [exact Hw|].
    intros t Ht. apply Hall. lia.
Qed.

(** As long as what is typed fits a word of the array, that word stays in
    the array: the loop does not say that no words match, and if it names
    a word, it names that one. *)
Lemma game_loop_truthful (n : nat) :
  forall turn words first typed evs err secret,
    game_loop n turn words first typed = (evs, err) ->
    In secret (rows words) ->
    (forall t, (turn <= t < turn + n)%nat -> fits typed t secret) ->
    ~ In NoWordsMatch evs.
Proof.
  induction n as [|n IH]; intros turn words first typed evs err secret H Hs Hfit;
    cbn [game_loop] in H.
  - injection H as <- <-. auto.
  - destruct (if (turn =? 0)%nat then Ok first else rank_words words)
      as [[sw sp]|e]; [|injection H as <- <-; auto].
    destruct (show_words sw sp 10) as [lines [e|]].
    { injection H as <- <-. intro Hin. apply in_ranked_only in Hin.
      discriminate. }
    unfold get_guess_colors in H.
    destruct (get_poss_words (get_unicode (fst (typed turn)))
                (get_unicode (snd (typed turn))) words) as [words'|e] eqn:E.
    2:{ injection H as <- <-. intro Hin. apply in_ranked_only in Hin.
        discriminate. }
    pose proof (get_poss_words_ok_rows _ _ _ _ E) as Hrows.
    assert (Hs' : In secret (rows words')).
    { rewrite Hrows. cbn [rows]. apply filter_In. split; [exact Hs|].
      apply Hfit. lia. }
    destruct (shape0 words' =? 1)%nat eqn:E1.
    + destruct (get_str (nth 0 (rows words') [])) as [word|] eqn:Es;
        injection H as <- <-; intro Hin.
      * destruct Hin as [Hin|[Hin|[]]]; discriminate.
      * apply in_ranked_only in Hin. discriminate.
    + destruct (shape0 words' =? 0)%nat eqn:E0.
      { exfalso. apply Nat.eqb_eq in E0. unfold shape0 in E0.
        destruct (rows words'); [contradiction|discriminate]. }
      destruct (game_loop n (S turn) words' first typed) as [rest err'] eqn:Eg.
      assert (Hrest : ~ In NoWordsMatch rest).
      { apply (IH _ _ _ _ _ _ secret Eg Hs'). intros t Ht. apply Hfit. lia. }
      destruct (turn =? 5)%nat; injection H as <- <-; intro Hin.
      * destruct Hin as [Hin|[Hin|Hin]]; [discriminate|discriminate|auto].
      * destruct Hin as [Hin|Hin]; [discriminate|auto].
Qed.

(** If the answer is in the dictionary and the colours typed at each of
    the six turns fit it, the program never says that no words match, and
    the only word it can name is the answer. *)
Theorem main_truthful (words : ndarray2)
  (first_word_stats : ndarray2 * list Q) (typed : nat -> string * string)
  (evs : list event) (err : option raised) (secret : list Z) :
  main words first_word_stats typed = (evs, err) ->
  In secret (rows words) ->
  (forall t, (t < 6)%nat -> fits typed t secret) ->
  ~ In NoWordsMatch evs
  /\ forall word, In (IsTheWord word) evs -> get_unicode word = secret.
Proof.
  intros H Hs Hfit. unfold main in H. split.
  - apply (game_loop_truthful _ _ _ _ _ _ _ secret H Hs).
    intros t Ht. apply Hfit. lia.
  - intros word Hin.
    destruct (game_loop_names_only_candidate _ _ _ _ _ _ _ _ H Hin)
      as (k & Hk & _ & _ & Huniq).
    symmetry. apply Huniq; [exact Hs|]. intros t Ht. apply Hfit. lia.
Qed.

(** ** A game that runs to its end *)










(** ** The example game *)

Lemma example_typed_fits (t : nat) :
  fits example_typed t (get_unicode "grace").
Proof.
  destruct t as [|[|t]]; vm_compute; reflexivity.
Qed.


Lemma main_names_only_candidate_witness :
  In (IsTheWord "grace")
    (fst (main (words_of example_dictionary) example_first_word_stats
            example_typed))
  /\ exists turns,
       (1 <= turns <= 6)%nat
       /\ In (get_unicode "grace") (rows (words_of example_dictionary))
       /\ (forall t, (t < turns)%nat ->
             fits example_typed t (get_unicode "grace"))
       /\ (forall w, In w (rows (words_of example_dictionary)) ->
             (forall t, (t < turns)%nat -> fits example_typed t w) ->
             w = get_unicode "grace").
Proof.
  assert (Hin : In (IsTheWord "grace")
                  (fst (main (words_of example_dictionary)
                          example_first_word_stats example_typed))).
  { apply (nth_error_In _ 3). vm_compute. reflexivity. }
  split; [exact Hin|].
  apply (main_names_only_candidate (words_of example_dictionary)
           example_first_word_stats example_typed _ _ "grace"
           (surjective_pairing _) Hin).
Defined.

Lemma main_truthful_witness :
  ~ In NoWordsMatch
      (fst (main (words_of example_dictionary) example_first_word_stats
              example_typed))
  /\ forall word,
       In (IsTheWord word)
         (fst (main (words_of example_dictionary) example_first_word_stats
                 example_typed)) ->
       get_unicode word = get_unicode "grace".
Proof.
  apply (main_truthful (words_of example_dictionary)
           example_first_word_stats example_typed _ _ (get_unicode "grace")
           (surjective_pairing _)).
  - cbn. auto 10.
  - intros t _. apply example_typed_fits.
Defined.


(** * The filter and the colours of the game *)

Lemma green_mask_determined (p : Z -> bool) (cs g w : list Z) :
  length g = length cs -> length w = length cs ->
  forallb (fun t : bool => t)
    (zip_with Z.eqb (compress (map p cs) w) (compress (map p cs) g)) = true ->
  forallb (fun t : bool => t)
    (zip_with (fun x y => negb (x =? y))
       (compress (map (fun c => negb (p c)) cs) w)
       (compress (map (fun c => negb (p c)) cs) g)) = true ->
  map p cs = zip_with Z.eqb g w.
Proof.
  revert g w. induction cs as [|c cs IH]; intros [|x g] [|y w] Hg Hw H1 H2;
    try discriminate; [reflexivity|].
  injection Hg as Hg. injection Hw as Hw.
  cbn [map compress zip_with] in *.
  destruct (p c); cbn [negb] in H2; cbn [zip_with forallb] in H1, H2.
  - apply andb_true_iff in H1. destruct H1 as [Hxy H1].
    apply Z.eqb_eq in Hxy. subst y. rewrite Z.eqb_refl.
    f_equal. apply IH; assumption.
  - apply andb_true_iff in H2. destruct H2 as [Hxy H2].
    apply negb_true_iff, Z.eqb_neq in Hxy.
    destruct (Z.eqb_spec x y) as [E|_]; [symmetry in E; contradiction|].
    f_equal. apply IH; assumption.
Qed.

Lemma consistent_green_mask (guess colors w : list Z) :
  length guess = length colors -> length w = length colors ->
  consistent guess colors w = true ->
  mask_eq colors G_UNICODE = zip_with Z.eqb guess w.
Proof.
  intros Hg Hw Hcons. unfold consistent in Hcons.
  rewrite !andb_true_iff in Hcons. destruct Hcons as [[[H1 H2] _] _].
  unfold green_ok, not_at_index_ok, mask_eq, invert in *. cbv zeta in H1, H2.
  rewrite map_map in H2.
  apply (green_mask_determined (fun c => c =? G_UNICODE)); assumption.
Qed.

Lemma count_eq_remove_one_le (x u : Z) (pool : list Z) :
  (count_eq (remove_one x pool) u <= count_eq pool u)%nat.
Proof.
  induction pool as [|y pool IH]; cbn [remove_one]; [lia|].
  destruct (y =? x); rewrite ?count_eq_cons; lia.
Qed.

(** Painting against two answers gives the same colours when the letters
    agree at the same positions and the letters left of the second answer
    cover the yellow letters and do not exceed them for a black letter. *)
Lemma paint_same (guess : list Z) :
  forall a w pool_a pool_w,
    zip_with Z.eqb guess a = zip_with Z.eqb guess w ->
    length guess = length a -> length guess = length w ->
    (forall u,
       (count_eq (compress (mask_eq (paint pool_a guess a) Y_UNICODE) guess) u
        <= count_eq pool_w u)%nat) ->
    (forall u,
       In u (compress (mask_eq (paint pool_a guess a) B_UNICODE) guess) ->
       (count_eq pool_w u
        <= count_eq (compress (mask_eq (paint pool_a guess a) Y_UNICODE)
                       guess) u)%nat) ->
    paint pool_w guess w = paint pool_a guess a.
Proof.
  unfold mask_eq.
  induction guess as [|x guess IH]; intros [|ya a] [|yw w] pool_a pool_w
    Hgreen Hla Hlw Hy Hb; try discriminate; [reflexivity|].
  injection Hla as Hla. injection Hlw as Hlw.
  cbn [zip_with] in Hgreen. injection Hgreen as Hhead Hgreen.
  cbn [paint] in *. rewrite <- Hhead.
  destruct (x =? ya).
  - cbn [map compress] in Hy, Hb.
    change (G_UNICODE =? Y_UNICODE) with false in Hy, Hb.
    change (G_UNICODE =? B_UNICODE) with false in Hb. cbn iota in Hy, Hb.
    f_equal. apply IH; assumption.
  - destruct (existsb (fun z => z =? x) pool_a) eqn:Ea.
    + cbn [map compress] in Hy, Hb.
      change (Y_UNICODE =? Y_UNICODE) with true in Hy, Hb.
      change (Y_UNICODE =? B_UNICODE) with false in Hb. cbn iota in Hy, Hb.
      assert (Hin : In x pool_w).
      { apply count_eq_pos_in. specialize (Hy x).
        rewrite count_eq_cons, Z.eqb_refl in Hy. lia. }
      pose proof Hin as Hex. apply existsb_eqb_in in Hex. rewrite Hex.
      f_equal. apply IH; try assumption.
      * intro u. specialize (Hy u).
        rewrite count_eq_cons in Hy.
        rewrite (count_eq_remove_one x u pool_w Hin) in Hy. lia.
      * intros u Hu. specialize (Hb u Hu).
        rewrite count_eq_cons in Hb.
        rewrite (count_eq_remove_one x u pool_w Hin) in Hb. lia.
    + cbn [map compress] in Hy, Hb.
      change (B_UNICODE =? Y_UNICODE) with false in Hy, Hb.
      change (B_UNICODE =? B_UNICODE) with true in Hb. cbn iota in Hy, Hb.
      assert (Hnin : ~ In x pool_w).
      { intro Hin. apply count_eq_pos_in in Hin.
        specialize (Hb x (or_introl eq_refl)).
        pose proof (paint_yellow_le_pool pool_a guess a x) as Hle.
        unfold mask_eq in Hle.
        rewrite (count_eq_not_in x pool_a) in Hle; [lia|].
        intro Hin'. apply existsb_eqb_in in Hin'. congruence. }
      assert (Hex : existsb (fun z => z =? x) pool_w = false).
      { destruct (existsb (fun z => z =? x) pool_w) eqn:E; [|reflexivity].
        apply existsb_eqb_in in E. contradiction. }
      rewrite Hex. f_equal. apply IH; try assumption.
      intros u Hu. apply Hb. right. exact Hu.
Qed.

Lemma zip_neq_of_zip_eq (guess a w : list Z) :
  zip_with Z.eqb guess a = zip_with Z.eqb guess w ->
  zip_with (fun x y => negb (x =? y)) guess a
  = zip_with (fun x y => negb (x =? y)) guess w.
Proof.
  intro H. rewrite <- !invert_zip_eqb, H. reflexivity.
Qed.

Lemma consistent_game_colors_iff (guess answer w : list Z) :
  length guess = length answer -> length w = length answer ->
  (consistent guess (game_colors guess answer) w = true
   <-> game_colors guess w = game_colors guess answer).
Proof.
  intros Hg Hw. split.
  - intro Hcons.
    assert (Hlen : length (game_colors guess answer) = length guess)
      by (apply length_paint; exact Hg).
    pose proof (consistent_green_mask guess _ w (eq_sym Hlen)
                  (eq_trans Hw (eq_trans (eq_sym Hg) (eq_sym Hlen))) Hcons)
      as Hmask.
    unfold game_colors in Hmask at 1. rewrite paint_green_mask in Hmask.
    pose proof Hcons as Hc. unfold consistent in Hc.
    rewrite !andb_true_iff in Hc. destruct Hc as [[_ Hy] Hb].
    rewrite yellow_ok_iff in Hy. rewrite black_ok_iff in Hb.
    unfold game_colors in Hy at 3. unfold game_colors in Hb at 2.
    rewrite paint_green_mask, invert_zip_eqb in Hy, Hb.
    rewrite (zip_neq_of_zip_eq _ _ _ Hmask) in Hy, Hb.
    unfold game_colors at 1. unfold game_colors in Hy, Hb |- *.
    apply paint_same; try congruence.
    + intro u.
      destruct (in_dec Z.eq_dec u
                  (compress
                     (mask_eq
                        (paint
                           (compress
                              (zip_with (fun x y => negb (x =? y)) guess answer)
                              answer) guess answer) Y_UNICODE) guess))
        as [Hin|Hnin].
      * apply Hy. exact Hin.
      * rewrite (count_eq_not_in _ _ Hnin). lia.
    + intros u Hu. apply Hb. exact Hu.
  - intro H. rewrite <- H. apply consistent_game_colors.
Qed.

(** The filter is exact for the colours of the game: given the colours
    the game shows for the guess against an answer, it keeps the rows that
    would have been given the same colours, and no other row; the answer,
    if it is a row, is kept. *)
Theorem get_poss_words_exact_for_game_colors (guess answer : list Z)
  (words : ndarray2) :
  wf_array words ->
  length guess = ncols words ->
  length answer = ncols words ->
  exists words',
    get_poss_words guess (game_colors guess answer) words = Ok words'
    /\ (forall w,
          In w (rows words') <->
          In w (rows words)
          /\ game_colors guess w = game_colors guess answer)
    /\ (In answer (rows words) -> In answer (rows words')).
Proof.
  intros Hwf Hg Ha.
  assert (Hlen : length (game_colors guess answer) = length guess)
    by (apply length_paint; congruence).
  eexists. split; [|split].
  - apply get_poss_words_rows; congruence.
  - intro w. cbn [rows]. rewrite filter_In.
    split; intros [Hin H]; (split; [exact Hin|]);
      apply (consistent_game_colors_iff guess answer w); auto; try congruence;
      rewrite (wf_array_in _ _ Hwf Hin); congruence.
  - intro Hin. cbn [rows]. apply filter_In. split; [exact Hin|].
    apply consistent_game_colors.
Qed.

Lemma get_poss_words_exact_for_game_colors_witness :
  game_colors (get_unicode "speed") (get_unicode "abide")
  = get_unicode "bbyby"
  /\ exists words',
       get_poss_words (get_unicode "speed")
         (game_colors (get_unicode "speed") (get_unicode "abide"))
         (words_of ["abide"; "erode"; "dairy"]%string) = Ok words'
       /\ (forall w,
             In w (rows words') <->
             In w (rows (words_of ["abide"; "erode"; "dairy"]%string))
             /\ game_colors (get_unicode "speed") w
                = game_colors (get_unicode "speed") (get_unicode "abide"))
       /\ (In (get_unicode "abide")
             (rows (words_of ["abide"; "erode"; "dairy"]%string)) ->
           In (get_unicode "abide") (rows words')).
Proof.
  split; [vm_compute; reflexivity|].
  apply (get_poss_words_exact_for_game_colors (get_unicode "speed")
           (get_unicode "abide")
           (words_of ["abide"; "erode"; "dairy"]%string)).
  - repeat constructor.
  - reflexivity.
  - reflexivity.
Defined.

(** ** A pattern that no answer gives *)

(** With the guess [speed] the game never shows [bbbyy]: of two equal
    letters outside the green positions it paints the left one yellow
    first. *)
Lemma speed_bbbyy_no_answer (answer : list Z) :
  length answer = 5%nat ->
  game_colors (get_unicode "speed") answer <> get_unicode "bbbyy".
Proof.
  intros Hlen H.
  assert (Hcons : consistent (get_unicode "speed")
                    (game_colors (get_unicode "speed") answer)
                    (get_unicode "abide") = true)
    by (rewrite H; vm_compute; reflexivity).
  apply consistent_game_colors_iff in Hcons;
    [|rewrite Hlen; reflexivity|rewrite Hlen; reflexivity].
  rewrite H in Hcons. vm_compute in Hcons. discriminate.
Qed.

(** C1: the code at the guess [speed] and the one candidate [abide].  The
    game shows [bbyby] for this answer, and [bbbyy] for no answer of five
    letters; the filter keeps [abide] for both patterns, so the counts
    over the 243 patterns add up to 2 for one candidate.  With the guess
    among the candidates, as [rank_words] calls the filter, they add up to
    3 for the two candidates [speed] and [abide]. *)
Theorem total_poss_words_speed_abide :
  total_poss_words POSSIBLE_COLORS (get_unicode "speed")
    (words_of ["abide"%string]) = Ok 2%nat
  /\ shape0 (words_of ["abide"%string]) = 1%nat
  /\ game_colors (get_unicode "speed") (get_unicode "abide")
     = get_unicode "bbyby"
  /\ get_poss_words (get_unicode "speed") (get_unicode "bbyby")
       (words_of ["abide"%string]) = Ok (words_of ["abide"%string])
  /\ get_poss_words (get_unicode "speed") (get_unicode "bbbyy")
       (words_of ["abide"%string]) = Ok (words_of ["abide"%string])
  /\ (forall answer, length answer = 5%nat ->
        game_colors (get_unicode "speed") answer <> get_unicode "bbbyy")
  /\ total_poss_words POSSIBLE_COLORS (get_unicode "speed")
       (words_of ["speed"; "abide"]%string) = Ok 3%nat
  /\ shape0 (words_of ["speed"; "abide"]%string) = 2%nat.
Proof.
  split; [vm_compute; reflexivity|].
  split; [reflexivity|].
  split; [vm_compute; reflexivity|].
  split; [vm_compute; reflexivity|].
  split; [vm_compute; reflexivity|].
  split; [exact speed_bbbyy_no_answer|].
  split; [vm_compute; reflexivity|reflexivity].
Qed.

(** C6: the code at the same input.  The pattern [bbbyy], which no answer
    of five letters gives for [speed], does not contribute [n_f = 0]: the
    filter keeps [abide] for it, [n_f = 1], and the score of [speed]
    against the one candidate [abide] is 2.  With the guess among the
    candidates, as [rank_words] calls it, the score of [speed] against
    [speed] and [abide] is 3/2, where the two patterns the game can show
    leave one word each. *)
Theorem calc_guess_entropy_counts_impossible_pattern :
  (forall answer, length answer = 5%nat ->
     game_colors (get_unicode "speed") answer <> get_unicode "bbbyy")
  /\ In (get_unicode "bbbyy") POSSIBLE_COLORS
  /\ n_poss_words (get_unicode "speed") (get_unicode "bbbyy")
       (words_of ["abide"%string]) = 1%nat
  /\ shape0 (words_of ["abide"%string]) = 1%nat
  /\ (exists q,
        calc_guess_entropy (get_unicode "speed") (words_of ["abide"%string])
        = Ok q
        /\ (q == 2)%Q)
  /\ n_poss_words (get_unicode "speed") (get_unicode "bbbyy")
       (words_of ["speed"; "abide"]%string) = 1%nat
  /\ exists q,
       calc_guess_entropy (get_unicode "speed")
         (words_of ["speed"; "abide"]%string) = Ok q
       /\ (q == 3 # 2)%Q.
Proof.
  split; [exact speed_bbbyy_no_answer|].
  split.
  { apply in_POSSIBLE_COLORS. split; [reflexivity|].
    repeat (apply Forall_cons; [vm_compute; auto|]). apply Forall_nil. }
  split; [vm_compute; reflexivity|].
  split; [reflexivity|].
  split; [eexists; split; [vm_compute; reflexivity|reflexivity]|].
  split; [vm_compute; reflexivity|].
  eexists. split; [vm_compute; reflexivity|vm_compute; reflexivity].
Qed.

(** * Where the printing and the game stop short *)

Lemma show_lines_short_scores (words : ndarray2) (pred : list Q) (k : nat) :
  (forall r, In r (rows words) -> get_str r <> None) ->
  forall s,
    (s + k <= shape0 words)%nat ->
    (s <= length pred < s + k)%nat ->
    exists lines,
      show_lines (seq s k) words pred = (lines, Some (Raised IndexError))
      /\ length lines = (length pred - s)%nat.
Proof.
  intro Hdec. induction k as [|k IH]; intros s Hs Hp; [lia|].
  cbn [seq show_lines].
  destruct (get_str (nth s (rows words) [])) as [word|] eqn:Ew.
  - destruct (nth_error pred s) as [score|] eqn:Es.
    + assert (s < length pred)%nat
        by (apply nth_error_Some; rewrite Es; discriminate).
      destruct (IH (S s)) as (lines & Hl & Hlen); [lia|lia|].
      rewrite Hl. eexists. split; [reflexivity|]. cbn [length]. lia.
    + apply nth_error_None in Es. exists []. split; [reflexivity|].
      cbn [length]. lia.
  - exfalso. apply (Hdec (nth s (rows words) [])); [|exact Ew].
    apply nth_In. unfold shape0 in Hs. lia.
Qed.

(** With fewer scores than rows to show, [show_words] prints a line for
    each score there is and then raises [IndexError]. *)
Theorem show_words_short_scores (words : ndarray2) (pred : list Q)
  (n_words : nat) :
  (forall r, In r (rows words) -> get_str r <> None) ->
  (length pred < Nat.min (shape0 words) n_words)%nat ->
  exists lines,
    show_words words pred n_words = (lines, Some (Raised IndexError))
    /\ length lines = length pred.
Proof.
  intros Hdec Hp. unfold show_words.
  destruct (show_lines_short_scores words pred
              (Nat.min (shape0 words) n_words) Hdec O)
    as (lines & Hl & Hlen); [lia|lia|].
  exists lines. split; [exact Hl|]. lia.
Qed.

Lemma show_words_short_scores_witness :
  exists lines,
    show_words (words_of ["crane"; "trace"; "crazy"]%string) [1 # 1]%Q 10
    = (lines, Some (Raised IndexError))
    /\ length lines = length [1 # 1]%Q.
Proof.
  apply (show_words_short_scores
           (words_of ["crane"; "trace"; "crazy"]%string) [1 # 1]%Q 10).
  - intros r Hr. cbn in Hr.
    destruct Hr as [<-|[<-|[<-|[]]]]; vm_compute; discriminate.
  - cbn. lia.
Defined.

(** What is typed is not checked and not asked again: if the colours
    typed at the first turn are not empty and have not the width of the
    dictionary, or are not empty and the guess has not their length, the
    program shows the first table and stops on [IndexError]. *)
Theorem main_stops_on_mistyped_length (words : ndarray2)
  (first_word_stats : ndarray2 * list Q) (typed : nat -> string * string)
  (lines : list line) :
  show_words (fst first_word_stats) (snd first_word_stats) 10
  = (lines, None) ->
  String.length (snd (typed O)) <> O ->
  String.length (snd (typed O)) <> ncols words
  \/ String.length (fst (typed O)) <> String.length (snd (typed O)) ->
  main words first_word_stats typed
  = ([RankedWords lines], Some (Raised IndexError)).
Proof.
  intros Hshow Hne Hbad. unfold main. cbn [game_loop Nat.eqb].
  destruct first_word_stats as [sw sp]. cbn [fst snd] in Hshow.
  rewrite Hshow. unfold get_guess_colors.
  rewrite get_poss_words_bad_shape; [reflexivity|].
  unfold shape_ok. rewrite !length_get_unicode. intros [H0|[Hc Hg]].
  - contradiction.
  - destruct Hbad as [H|H]; apply H; assumption.
Qed.

Lemma main_stops_on_mistyped_length_witness :
  main (words_of example_dictionary) example_first_word_stats
    (fun _ => ("crane", "yggb")%string)
  = ([RankedWords [(0%nat, "trace"%string, 3 # 2);
                   (1%nat, "crane"%string, 2 # 1)]%Q],
     Some (Raised IndexError)).
Proof.
  apply (main_stops_on_mistyped_length (words_of example_dictionary)
           example_first_word_stats (fun _ => ("crane", "yggb")%string)).
  - vm_compute. reflexivity.
  - cbn. discriminate.
  - left. cbn. discriminate.
Defined.
